(** * demo-registry: the registry builder and the static server

    A shallow embedding of [scripts/build-registry.mjs] (the markdown-table
    parser, the row validator, the TSV serializer and the versioned artifact
    writer) and of the Go static server shipped next to it (the gzip
    middleware [withGzip] and the cache-hint handler), followed by the
    properties of the specification proved, or refuted, on them.

    Conventions.
    - A JavaScript string is the list of its UTF-16 code units, each a [Z].
    - A byte buffer is a list of [Z] in [0, 256).
    - A Go string is a Rocq [string] (a sequence of bytes).
    - A JavaScript object used as a record, and a [Map], is a [gmap].
    - The file system and the standard output are threaded explicitly. *)

From Stdlib Require Import ZArith Lia List Ascii String DecimalString.
From stdpp Require Import base option list gmap strings.

Local Open Scope Z_scope.

(** ** JavaScript strings *)

Module JS.

Abbreviation jsstring := (list Z).

(** A string literal of the source, as code units (the literals of the
    source are all ASCII). *)
Definition js (s : string) : jsstring :=
  map (fun a : ascii => Z.of_N (N_of_ascii a)) (list_ascii_of_string s).

(** [WhiteSpace] and [LineTerminator] of ECMAScript: what [trim] strips and
    what [\s] matches. *)
Definition isWhiteSpace (c : Z) : bool :=
  (9 <=? c) && (c <=? 13)
  || (c =? 32) || (c =? 160) || (c =? 5760)
  || (8192 <=? c) && (c <=? 8202)
  || (c =? 8232) || (c =? 8233) || (c =? 8239) || (c =? 8287)
  || (c =? 12288) || (c =? 65279).

Fixpoint trimStart (s : jsstring) : jsstring :=
  match s with
  | c :: s' => if isWhiteSpace c then trimStart s' else s
  | [] => []
  end.

Definition trimEnd (s : jsstring) : jsstring := rev (trimStart (rev s)).

Definition trim (s : jsstring) : jsstring := trimEnd (trimStart s).

(** [s.startsWith(p)] *)
Fixpoint startsWith (s p : jsstring) {struct p} : bool :=
  match p, s with
  | [], _ => true
  | a :: p', b :: s' => (a =? b) && startsWith s' p'
  | _ :: _, [] => false
  end.

(** [s.includes(p)] *)
Fixpoint includes (s p : jsstring) {struct s} : bool :=
  startsWith s p ||
  match s with
  | [] => false
  | _ :: s' => includes s' p
  end.

(** [s.split(sep)] for a separator of one code unit, which is what every
    call of the source passes. The result is never empty: the empty string
    splits into one empty piece. *)
Fixpoint split (s : jsstring) (sep : Z) : list jsstring :=
  match s with
  | [] => [[]]
  | c :: s' =>
      if c =? sep then [] :: split s' sep
      else match split s' sep with
           | p :: ps => (c :: p) :: ps
           | [] => [[c]]
           end
  end.

(** [s.split(/\r?\n/)]: a line feed separates, and a carriage return right
    before it belongs to the separator. *)
Fixpoint splitLines (s : jsstring) : list jsstring :=
  match s with
  | [] => [[]]
  | c :: s' =>
      if c =? 10 then [] :: splitLines s'
      else if (c =? 13) && (match s' with d :: _ => d =? 10 | [] => false end)
      then splitLines s'
      else match splitLines s' with
           | p :: ps => (c :: p) :: ps
           | [] => [[c]]
           end
  end.

(** [l.join(sep)] *)
Fixpoint join (l : list jsstring) (sep : jsstring) : jsstring :=
  match l with
  | [] => []
  | [p] => p
  | p :: ps => p ++ sep ++ join ps sep
  end.

(** [s.replaceAll(a, b)] for one-unit [a] and [b]. *)
Definition replaceAll (s : jsstring) (a b : Z) : jsstring :=
  map (fun c => if c =? a then b else c) s.

(** [/\s/.test(s)] *)
Definition hasWhiteSpace (s : jsstring) : bool := existsb isWhiteSpace s.

(** A string is truthy when it is not empty. *)
Definition truthy (s : jsstring) : bool :=
  match s with [] => false | _ :: _ => true end.

(** The decimal text of a non-negative integer inside a template literal. *)
Definition ofNat (n : nat) : jsstring :=
  js (NilEmpty.string_of_uint (Nat.to_uint n)).

End JS.

Import JS.

(** ** Buffers: UTF-8 and SHA-256 *)

Module Buffer.

Abbreviation bytes := (list Z).

Definition isHighSurrogate (c : Z) : bool := (0xD800 <=? c) && (c <=? 0xDBFF).
Definition isLowSurrogate (c : Z) : bool := (0xDC00 <=? c) && (c <=? 0xDFFF).

(** The UTF-8 bytes of one code point. *)
Definition encodeCodePoint (cp : Z) : bytes :=
  if cp <? 0x80 then [cp]
  else if cp <? 0x800 then
    [Z.lor 0xC0 (Z.shiftr cp 6); Z.lor 0x80 (Z.land cp 0x3F)]
  else if cp <? 0x10000 then
    [Z.lor 0xE0 (Z.shiftr cp 12);
     Z.lor 0x80 (Z.land (Z.shiftr cp 6) 0x3F);
     Z.lor 0x80 (Z.land cp 0x3F)]
  else
    [Z.lor 0xF0 (Z.shiftr cp 18);
     Z.lor 0x80 (Z.land (Z.shiftr cp 12) 0x3F);
     Z.lor 0x80 (Z.land (Z.shiftr cp 6) 0x3F);
     Z.lor 0x80 (Z.land cp 0x3F)].

Definition replacement : bytes := [0xEF; 0xBF; 0xBD].

(** [Buffer.from(s, "utf8")]: surrogate pairs are combined, and a surrogate
    on its own becomes U+FFFD. *)
Fixpoint from_utf8 (s : jsstring) : bytes :=
  match s with
  | [] => []
  | c :: rest =>
      if isHighSurrogate c then
        match rest with
        | d :: rest' =>
            if isLowSurrogate d
            then encodeCodePoint (0x10000 + (c - 0xD800) * 0x400 + (d - 0xDC00))
                   ++ from_utf8 rest'
            else replacement ++ from_utf8 rest
        | [] => replacement
        end
      else if isLowSurrogate c then replacement ++ from_utf8 rest
      else encodeCodePoint c ++ from_utf8 rest
  end.

(** The UTF-16 code units of one code point. *)
Definition codeUnits (cp : Z) : jsstring :=
  if cp <? 0x10000 then [cp]
  else [0xD800 + Z.shiftr (cp - 0x10000) 10; 0xDC00 + Z.land (cp - 0x10000) 0x3FF].

(** The decoder of [buf.toString("utf8")], a state machine over the bytes:
    [needed] continuation bytes are still expected for the code point [cp],
    the next of them within [lower, upper]. An ill-formed sequence yields
    U+FFFD, and the byte that broke it is decoded again from the start
    state. *)
Record decoder := Decoder { cp : Z; needed : nat; lower : Z; upper : Z }.

Definition idle : decoder := Decoder 0 0 0x80 0xBF.

Definition lead (b : Z) : jsstring * decoder :=
  if b <=? 0x7F then ([b], idle)
  else if (0xC2 <=? b) && (b <=? 0xDF) then ([], Decoder (Z.land b 0x1F) 1 0x80 0xBF)
  else if (0xE0 <=? b) && (b <=? 0xEF) then
    ([], Decoder (Z.land b 0xF) 2 (if b =? 0xE0 then 0xA0 else 0x80)
                                  (if b =? 0xED then 0x9F else 0xBF))
  else if (0xF0 <=? b) && (b <=? 0xF4) then
    ([], Decoder (Z.land b 0x7) 3 (if b =? 0xF0 then 0x90 else 0x80)
                                  (if b =? 0xF4 then 0x8F else 0xBF))
  else ([0xFFFD], idle).

Definition feed (d : decoder) (b : Z) : jsstring * decoder :=
  match needed d with
  | O => lead b
  | S n =>
      if (lower d <=? b) && (b <=? upper d) then
        let cp' := Z.lor (Z.shiftl (cp d) 6) (Z.land b 0x3F) in
        match n with
        | O => (codeUnits cp', idle)
        | S _ => ([], Decoder cp' n 0x80 0xBF)
        end
      else let '(out, d') := lead b in (0xFFFD :: out, d')
  end.

Fixpoint decode (d : decoder) (buf : bytes) : jsstring :=
  match buf with
  | [] => match needed d with O => [] | S _ => [0xFFFD] end
  | b :: buf' => let '(out, d') := feed d b in out ++ decode d' buf'
  end.

Definition toString_utf8 (buf : bytes) : jsstring := decode idle buf.

End Buffer.

(** [crypto.createHash("sha256")], after FIPS 180-4. Words are integers in
    [0, 2^32). *)
Module SHA256.

Definition mask32 : Z := 0xFFFFFFFF.
Definition add32 (a b : Z) : Z := Z.land (a + b) mask32.
Definition rotr (n x : Z) : Z :=
  Z.lor (Z.shiftr x n) (Z.land (Z.shiftl x (32 - n)) mask32).
Definition xor3 (a b c : Z) : Z := Z.lxor (Z.lxor a b) c.

Definition Ch (x y z : Z) : Z := Z.lxor (Z.land x y) (Z.land (Z.lxor x mask32) z).
Definition Maj (x y z : Z) : Z := xor3 (Z.land x y) (Z.land x z) (Z.land y z).
Definition Sigma0 (x : Z) : Z := xor3 (rotr 2 x) (rotr 13 x) (rotr 22 x).
Definition Sigma1 (x : Z) : Z := xor3 (rotr 6 x) (rotr 11 x) (rotr 25 x).
Definition sigma0 (x : Z) : Z := xor3 (rotr 7 x) (rotr 18 x) (Z.shiftr x 3).
Definition sigma1 (x : Z) : Z := xor3 (rotr 17 x) (rotr 19 x) (Z.shiftr x 10).

(** The constants are the first 32 bits of the fractional parts of the
    square roots (initial hash value) and cube roots (round constants) of
    the first primes; they are computed here rather than tabulated. *)
Definition isPrime (n : nat) : bool :=
  forallb (fun d => negb (Nat.eqb (n mod d) 0)) (seq 2 (n - 2)).

Definition primes : list Z :=
  Eval vm_compute in map Z.of_nat (filter isPrime (seq 2 310)).

Fixpoint icbrt_bits (b : nat) (n r : Z) : Z :=
  match b with
  | O => r
  | S b' =>
      let r' := r + 2 ^ Z.of_nat b' in
      icbrt_bits b' n (if r' * r' * r' <=? n then r' else r)
  end.

Definition icbrt (n : Z) : Z := icbrt_bits 35 n 0.

Definition K : list Z :=
  Eval vm_compute in map (fun p => Z.land (icbrt (p * 2 ^ 96)) mask32) primes.

Definition H0 : list Z :=
  Eval vm_compute in
    map (fun p => Z.land (Z.sqrt (p * 2 ^ 64)) mask32) (firstn 8 primes).

Definition be (n : nat) (x : Z) : list Z :=
  map (fun i => Z.land (Z.shiftr x (8 * Z.of_nat i)) 0xFF) (rev (seq 0 n)).

Definition word_be (b : list Z) : Z := fold_left (fun acc x => acc * 256 + x) b 0.

Definition pad (msg : list Z) : list Z :=
  let len := Z.of_nat (length msg) in
  msg ++ [0x80] ++ repeat 0 (Z.to_nat ((55 - len) mod 64)) ++ be 8 (8 * len).

Fixpoint chunks (fuel n : nat) (l : list Z) : list (list Z) :=
  match fuel, l with
  | S fuel', _ :: _ => firstn n l :: chunks fuel' n (skipn n l)
  | _, _ => []
  end.

Fixpoint schedule (k : nat) (w : list Z) : list Z :=
  match k with
  | O => w
  | S k' =>
      let t := length w in
      let g i := nth (t - i) w 0 in
      schedule k'
        (w ++ [add32 (add32 (sigma1 (g 2%nat)) (g 7%nat))
                     (add32 (sigma0 (g 15%nat)) (g 16%nat))])
  end.

Definition round (st : list Z) (kw : Z * Z) : list Z :=
  match st with
  | [a; b; c; d; e; f; g; h] =>
      let T1 := add32 (add32 (add32 h (Sigma1 e)) (add32 (Ch e f g) (fst kw))) (snd kw) in
      let T2 := add32 (Sigma0 a) (Maj a b c) in
      [add32 T1 T2; a; b; c; add32 d T1; e; f; g]
  | _ => st
  end.

Definition compress (h : list Z) (block : list Z) : list Z :=
  let w := schedule 48 (map word_be (chunks 16 4 block)) in
  zip_with add32 h (fold_left round (combine K w) h).

Definition digest (msg : list Z) : list Z :=
  let m := pad msg in
  flat_map (be 4) (fold_left compress (chunks (length m) 64 m) H0).

Definition hexDigit (d : Z) : Z := if d <? 10 then 48 + d else 87 + d.

(** [.digest("hex")]: two lowercase digits per byte. *)
Definition hex (b : list Z) : jsstring :=
  flat_map (fun x => [hexDigit (Z.shiftr x 4); hexDigit (Z.land x 0xF)]) b.

End SHA256.

(** ** The registry builder ([scripts/build-registry.mjs]) *)

Module Builder.

(** A row of the table: a plain object from column name to cell. *)
Abbreviation Row := (gmap (list Z) (list Z)).

(** [row[k] = v] on an object literal. The one key that does not create a
    property is [__proto__], whose setter ignores a string. *)
Definition setProp (k v : jsstring) (row : Row) : Row :=
  if decide (k = js "__proto__") then row else <[k := v]> row.

(** [k in r] and [r.k ?? ""] for the four required names, none of which is
    a property of [Object.prototype]; every value stored in a row is a
    string, so [String(...)] is the identity on it. *)
Definition hasProp (k : jsstring) (r : Row) : bool := bool_decide (is_Some (r !! k)).
Definition getProp (r : Row) (k : jsstring) : jsstring := default [] (r !! k).

(** What the script throws: [new Error(message)], or the error of a failed
    file-system call with its code. *)
Inductive exn :=
  | Error (message : jsstring)
  | SystemError (code : string) (path : jsstring).

Definition tsvEscape (s : jsstring) : jsstring :=
  replaceAll (replaceAll (replaceAll s 9 32) 13 32) 10 32.

(** *** parseMarkdownTable *)

Definition PIPE : jsstring := js "|".

(** The first loop: the index of the first line that starts with a pipe and
    is followed by a line that starts with a pipe; [lines] is the rest of
    the document from index [i] on. *)
Fixpoint findStart (lines : list jsstring) (i : nat) : option nat :=
  match lines with
  | [] => None
  | l :: rest =>
      let line := trim l in
      if startsWith line PIPE && includes line PIPE then
        match rest with
        | l' :: _ => if startsWith (trim l') PIPE then Some i else findStart rest (S i)
        | [] => findStart rest (S i)
        end
      else findStart rest (S i)
  end.

(** [line.split("|").map(x => x.trim()).filter(x => x.length > 0)] *)
Definition splitCells (line : jsstring) : list jsstring :=
  filter (fun x => truthy x = true) (map trim (split line 124)).

(** [while (cells.length < headers.length) cells.push("")] *)
Definition padCells (cells : list jsstring) (n : nat) : list jsstring :=
  cells ++ replicate (n - length cells) [].

(** [for (c = 0; c < headers.length; c++) row[headers[c]] = cells[c] ?? ""] *)
Definition mkRow (headers cells : list jsstring) : Row :=
  foldl (fun row c => setProp (headers !!! c) (default [] (cells !! c)) row)
        ∅ (seq 0 (length headers)).

(** The second loop, over the lines from index [start + 2] on. *)
Fixpoint parseRows (headers : list jsstring) (lines : list jsstring) : list Row :=
  match lines with
  | [] => []
  | l :: rest =>
      let line := trim l in
      if negb (startsWith line PIPE) then []
      else
        let cells := splitCells line in
        if Nat.eqb (length cells) 0 then parseRows headers rest
        else mkRow headers (padCells cells (length headers)) :: parseRows headers rest
  end.

Definition NoTable : exn := Error (js "No markdown table found in registry.md").
Definition NoDelimiter : exn := Error (js "Markdown delimiter line not found after header").

Definition parseMarkdownTable (mdText : jsstring) : exn + (list jsstring * list Row) :=
  let lines := splitLines mdText in
  match findStart lines 0 with
  | None => inl NoTable
  | Some start =>
      let headerLine := trim (lines !!! start) in
      let delimLine := trim (lines !!! (start + 1)%nat) in
      if negb (includes delimLine (js "---")) then inl NoDelimiter
      else
        let headers := splitCells headerLine in
        inr (headers, parseRows headers (drop (start + 2) lines))
  end.

(** *** validateRows *)

Section Validate.

(** [new URL(s).protocol], or [None] where the constructor throws: the URL
    parser of the platform, which the script calls and does not define. *)
Variable URL_protocol : jsstring -> option jsstring.

Definition isHttpUrl (s : jsstring) : bool :=
  match URL_protocol s with
  | Some p => bool_decide (p = js "http:") || bool_decide (p = js "https:")
  | None => false
  end.

Definition required : list jsstring := [js "slug"; js "title"; js "url"; js "tags"].

Definition quoted (s : jsstring) : jsstring := [34] ++ s ++ [34].

(** [`Row ${i + 1}: `], the head of every per-row message. *)
Definition rowTag (i : nat) : jsstring := js "Row " ++ ofNat (i + 1) ++ js ": ".

Definition when (b : bool) (e : jsstring) : list jsstring := if b then [e] else [].

(** The messages pushed by one turn of the first loop, in order. *)
Definition rowErrors (i : nat) (r : Row) : list jsstring :=
  let slug := trim (getProp r (js "slug")) in
  let title := trim (getProp r (js "title")) in
  let url := trim (getProp r (js "url")) in
  flat_map (fun k => when (negb (hasProp k r))
                          (rowTag i ++ js "missing column " ++ quoted k)) required
  ++ when (negb (truthy slug)) (rowTag i ++ js "empty slug")
  ++ when (hasWhiteSpace slug) (rowTag i ++ js "slug has whitespace: " ++ quoted slug)
  ++ when (negb (truthy title)) (rowTag i ++ js "empty title")
  ++ when (negb (truthy url)) (rowTag i ++ js "empty url")
  ++ when (truthy url && negb (isHttpUrl url))
          (rowTag i ++ js "url is not http(s): " ++ quoted url).

Fixpoint checkRows (rows : list Row) (i : nat) : list jsstring :=
  match rows with
  | [] => []
  | r :: rest => rowErrors i r ++ checkRows rest (S i)
  end.

(** [`Duplicate slug "${slug}" at rows ${first} and ${i + 1}`] *)
Definition duplicateMsg (slug : jsstring) (first again : nat) : jsstring :=
  js "Duplicate slug " ++ quoted slug ++ js " at rows " ++ ofNat first
    ++ js " and " ++ ofNat again.

(** The second loop; [seen] is the [Map] from a slug to the 1-based index
    of the row that introduced it, [rows] the rows from index [i] on. *)
Fixpoint checkDuplicates (rows : list Row) (i : nat) (seen : gmap (list Z) nat)
  : list jsstring :=
  match rows with
  | [] => []
  | r :: rest =>
      let slug := trim (getProp r (js "slug")) in
      if negb (truthy slug) then checkDuplicates rest (S i) seen
      else match seen !! slug with
           | Some first =>
               duplicateMsg slug first (i + 1) :: checkDuplicates rest (S i) seen
           | None => checkDuplicates rest (S i) (<[slug := (i + 1)%nat]> seen)
           end
  end.

(** The [errors] array when the two loops are over. *)
Definition collectErrors (rows : list Row) : list jsstring :=
  checkRows rows 0 ++ checkDuplicates rows 0 ∅.

Definition validationMessage (errors : list jsstring) : jsstring :=
  js "Registry validation failed:" ++ [10]
    ++ join (map (fun e => js "- " ++ e) errors) [10].

Definition validateRows (rows : list Row) : exn + unit :=
  let errors := collectErrors rows in
  if negb (Nat.eqb (length errors) 0) then inl (Error (validationMessage errors))
  else inr tt.

End Validate.

(** *** buildTSVBody *)

Definition TAB : jsstring := [9].
Definition LF : jsstring := [10].

Definition headerLine : jsstring :=
  join [js "slug"; js "title"; js "url"; js "tags"] TAB.

Definition normalizeTags (raw : jsstring) : jsstring :=
  join (filter (fun t => truthy t = true) (map trim (split raw 44))) (js ",").

Definition rowFields (r : Row) : list jsstring :=
  [tsvEscape (trim (getProp r (js "slug")));
   tsvEscape (trim (getProp r (js "title")));
   tsvEscape (trim (getProp r (js "url")));
   tsvEscape (normalizeTags (getProp r (js "tags")))].

Definition rowLine (r : Row) : jsstring := join (rowFields r) TAB.

Definition buildTSVBody (rows : list Row) : jsstring :=
  join (headerLine :: map rowLine rows) LF ++ LF.

(** *** main *)

(** The part of the world the script acts on: the files below [ROOT]
    (paths are written relative to it) and the lines printed so far. A
    path names a file with its bytes, or a directory. Failures that do not
    depend on this state (permissions, a full disk) are not modelled. *)
Inductive node := File (data : list Z) | Dir.

Record World := { files : gmap (list Z) node; stdout : list jsstring }.

(** A computation that may throw; what it did before throwing stays done. *)
Definition M (A : Type) : Type := World -> (exn + A) * World.

#[export] Instance M_ret : MRet M := fun A a w => (inr a, w).
#[export] Instance M_bind : MBind M := fun A B f m w =>
  match m w with
  | (inl e, w') => (inl e, w')
  | (inr a, w') => f a w'
  end.

Definition liftE {A} (r : exn + A) : M A := fun w => (r, w).

Definition INPUT_MD : jsstring := js "registry.md".
Definition OUT_DIR : jsstring := js "dist".

(** [path.join(a, b)] for the plain names joined here. *)
Definition path_join (a b : jsstring) : jsstring := a ++ js "/" ++ b.

(** [fs.mkdirSync(p, { recursive: true })] for a [p] right below [ROOT]. *)
Definition mkdirSync (p : jsstring) : M unit := fun w =>
  match files w !! p with
  | Some Dir => (inr tt, w)
  | Some (File _) => (inl (SystemError "EEXIST" p), w)
  | None => (inr tt, {| files := <[p := Dir]> (files w); stdout := stdout w |})
  end.

Definition ensureDir (p : jsstring) : M unit := mkdirSync p.

(** [fs.readFileSync(p, "utf8")] *)
Definition readFileSync (p : jsstring) : M jsstring := fun w =>
  match files w !! p with
  | Some (File data) => (inr (Buffer.toString_utf8 data), w)
  | Some Dir => (inl (SystemError "EISDIR" p), w)
  | None => (inl (SystemError "ENOENT" p), w)
  end.

(** [fs.writeFileSync(p, buf)]; the directory of [p] is [OUT_DIR], which
    [ensureDir] has made by then. *)
Definition writeFileSync (p : jsstring) (buf : list Z) : M unit := fun w =>
  match files w !! p with
  | Some Dir => (inl (SystemError "EISDIR" p), w)
  | _ => (inr tt, {| files := <[p := File buf]> (files w); stdout := stdout w |})
  end.

Definition console_log (line : jsstring) : M unit := fun w =>
  (inr tt, {| files := files w; stdout := stdout w ++ [line] |}).

Definition sha256hex (buf : list Z) : jsstring := SHA256.hex (SHA256.digest buf).

(** [version]: the hash of the body only. *)
Definition versionOf (body : jsstring) : jsstring :=
  take 16 (sha256hex (Buffer.from_utf8 body)).

Section Main.

Variable URL_protocol : jsstring -> option jsstring.

Definition main : M unit :=
  ensureDir OUT_DIR;;
  md ← readFileSync INPUT_MD;
  '(_, rows) ← liftE (parseMarkdownTable md);
  liftE (validateRows URL_protocol rows);;
  let body := buildTSVBody rows in
  let version := versionOf body in
  let meta := js "#v=" ++ version ++ LF in
  let full := meta ++ body in
  let fullBuf := Buffer.from_utf8 full in
  let hashedName := js "registry." ++ version ++ js ".tsv" in
  writeFileSync (path_join OUT_DIR (js "registry.tsv")) fullBuf;;
  writeFileSync (path_join OUT_DIR hashedName) fullBuf;;
  console_log (js "Built " ++ ofNat (length rows) ++ js " entries");;
  console_log (js "version: " ++ version);;
  console_log (js "dist/registry.tsv");;
  console_log (js "dist/" ++ hashedName).

End Main.

End Builder.

(** ** The static server (Go) *)

Module Server.

Local Open Scope string_scope.
Local Open Scope nat_scope.

(** *** The [strings] and [path/filepath] functions the server calls *)

Fixpoint HasPrefix (s prefix : string) {struct prefix} : bool :=
  match prefix, s with
  | EmptyString, _ => true
  | String a p, String b s' => Ascii.eqb a b && HasPrefix s' p
  | String _ _, EmptyString => false
  end.

(** [len(s) >= len(suffix) && s[len(s)-len(suffix):] == suffix] *)
Definition HasSuffix (s suffix : string) : bool :=
  (String.length suffix <=? String.length s)
  && String.eqb (substring (String.length s - String.length suffix)
                           (String.length suffix) s) suffix.

Fixpoint Contains (s substr : string) {struct s} : bool :=
  HasPrefix s substr ||
  match s with
  | EmptyString => false
  | String _ s' => Contains s' substr
  end.

Definition lowerByte (c : ascii) : ascii :=
  let n := nat_of_ascii c in
  if (65 <=? n) && (n <=? 90) then ascii_of_nat (n + 32) else c.

(** [strings.ToLower] on the bytes of ASCII. Bytes outside ASCII are left
    as they are: no letter outside ASCII lowers to a letter of the four
    extensions the result is compared with. *)
Fixpoint ToLower (s : string) : string :=
  match s with
  | EmptyString => EmptyString
  | String c s' => String (lowerByte c) (ToLower s')
  end.

(** The loop of [filepath.Ext], on a slash-separated path: [i] runs from
    the last index down, stops at a separator, and returns [path[i:]] at
    the first dot. [extFrom path n] has still the indices below [n] to
    look at. *)
Fixpoint extFrom (path : string) (n : nat) : string :=
  match n with
  | O => ""
  | S i =>
      match String.get i path with
      | Some c =>
          if Ascii.eqb c "/" then ""
          else if Ascii.eqb c "." then substring i (String.length path - i) path
          else extFrom path i
      | None => ""
      end
  end.

Definition Ext (path : string) : string := extFrom path (String.length path).

(** *** [net/http]: headers, requests, response writers *)

(** [http.Header]; every key the server uses is in canonical form. *)
Abbreviation header := (gmap string (list string)).

Definition Get (h : header) (key : string) : string :=
  match h !! key with
  | Some (v :: _) => v
  | _ => ""
  end.

Definition Set_ (h : header) (key value : string) : header := <[key := [value]]> h.

Definition Add (h : header) (key value : string) : header :=
  <[key := (default [] (h !! key) ++ [value])%list]> h.

Record Request := {
  Method : string;
  URL_Path : string;
  Header : header;
}.

(** The interface [http.ResponseWriter]. [Header()] hands out the header
    map, which the handler then changes in place: here the map is read
    with [wHeader] and stored back with [putHeader]. *)
Class ResponseWriter (W : Type) := {
  wHeader : W -> header;
  putHeader : header -> W -> W;
  Write : list Z -> W -> W;
  WriteHeader : Z -> W -> W;
}.

(** [w.Header().Set(k, v)] and [w.Header().Add(k, v)] *)
Definition setHeader `{ResponseWriter W} (key value : string) (w : W) : W :=
  putHeader (Set_ (wHeader w) key value) w.
Definition addHeader `{ResponseWriter W} (key value : string) (w : W) : W :=
  putHeader (Add (wHeader w) key value) w.

(** [http.Handler]: a handler sees the writer through the interface only. *)
Definition Handler : Type := forall W : Type, ResponseWriter W -> Request -> W -> W.

(** The response of the server to one request: the header map of the
    handler, the status line once it is written, the headers that went out
    with it, and the body bytes sent. *)
Record response := {
  hdr : header;
  status : option Z;
  sent : header;
  body : list Z;
}.

Definition response_WriteHeader (code : Z) (w : response) : response :=
  match status w with
  | Some _ => w
  | None => {| hdr := hdr w; status := Some code; sent := hdr w; body := body w |}
  end.

Definition response_Write (b : list Z) (w : response) : response :=
  let w' := response_WriteHeader 200 w in
  {| hdr := hdr w'; status := status w'; sent := sent w'; body := (body w' ++ b)%list |}.

#[export] Instance response_writer : ResponseWriter response := {
  wHeader := hdr;
  putHeader h w := {| hdr := h; status := status w; sent := sent w; body := body w |};
  Write := response_Write;
  WriteHeader := response_WriteHeader;
}.

(** The server runs the handler on a fresh response and, when the handler
    has written nothing, sends the status line for it. *)
Definition serve (h : Handler) (r : Request) : response :=
  response_WriteHeader 200
    (h response _ r {| hdr := ∅; status := None; sent := ∅; body := [] |}).

(** *** withGzip *)

(** [gzipResponseWriter]: the embedded writer, and the gzip writer, which
    holds what was written into it; the compressed stream reaches the
    embedded writer when the gzip writer is closed. *)
Record gzipResponseWriter (W : Type) := {
  embedded : W;
  w : list Z;
}.
Arguments embedded {W} _.
Arguments w {W} _.

#[export] Instance gzip_writer `{ResponseWriter W} : ResponseWriter (gzipResponseWriter W) := {
  wHeader g := wHeader (embedded g);
  putHeader h g := {| embedded := putHeader h (embedded g); w := w g |};
  Write b g := {| embedded := embedded g; w := (w g ++ b)%list |};
  WriteHeader code g := {| embedded := WriteHeader code (embedded g); w := w g |};
}.

Definition BestCompression : Z := 9.

Section Gzip.

(** [gzip.NewWriterLevel(w, level)] of [compress/gzip]: an error, or a
    writer, given by the stream it produces for the bytes written into
    it. *)
Variable NewWriterLevel : Z -> option (list Z -> list Z).

Definition gzipped (ext : string) : bool :=
  String.eqb ext ".tsv" || String.eqb ext ".html" || String.eqb ext ".js"
  || String.eqb ext ".css".

Definition withGzip (next : Handler) : Handler := fun W _ r w0 =>
  if negb (Contains (Get (Header r) "Accept-Encoding") "gzip") then next W _ r w0
  else
    let ext := ToLower (Ext (URL_Path r)) in
    if negb (gzipped ext) then next W _ r w0
    else
      let w1 := addHeader "Vary" "Accept-Encoding"
                  (setHeader "Content-Encoding" "gzip" w0) in
      match NewWriterLevel BestCompression with
      | None => next W _ r w1
      | Some gz =>
          let g := next (gzipResponseWriter W) _ r {| embedded := w1; w := [] |} in
          (* defer gz.Close() *)
          Write (gz (w g)) (embedded g)
      end.

(** The handler of [main], around the file server [fs]. *)
Definition handler (fs : Handler) : Handler := fun W _ r w0 =>
  let w1 := setHeader "Access-Control-Allow-Origin" "*" w0 in
  let w2 :=
    if HasPrefix (URL_Path r) "/registry." && HasSuffix (URL_Path r) ".tsv"
    then setHeader "Cache-Control" "public, max-age=31536000, immutable" w1
    else if String.eqb (URL_Path r) "/registry.tsv"
    then setHeader "Cache-Control" "public, max-age=60" w1
    else w1 in
  fs W _ r w2.

(** What [main] listens with. *)
Definition server (fs : Handler) : Handler := withGzip (handler fs).

End Gzip.

End Server.

Import Builder.

(** * Properties *)

(** ** Stand-ins for concrete runs *)

(** A stand-in for the URL parser in concrete runs: it reads the scheme
    off the front of the string and accepts the rest. *)
Definition schemeOnly (s : jsstring) : option jsstring :=
  if startsWith s (js "https:") then Some (js "https:")
  else if startsWith s (js "http:") then Some (js "http:")
  else if startsWith s (js "ftp:") then Some (js "ftp:")
  else None.

(** A row with the four columns. *)
Definition entry (slug title url tags : jsstring) : Row :=
  <[js "slug" := slug]> (<[js "title" := title]> (<[js "url" := url]> {[ js "tags" := tags ]})).

Definition mkEntry (slug title url tags : string) : Row :=
  entry (js slug) (js title) (js url) (js tags).

(** ** Strings: splitting, joining, trimming *)

Section StringFacts.

Implicit Types (s p : jsstring) (l : list jsstring) (c sep : Z).

Lemma split_nonempty s sep : split s sep <> [].
Proof.
  destruct s as [|c s]; simpl; [discriminate|].
  destruct (c =? sep); [discriminate|].
  destruct (split s sep); discriminate.
Qed.

(** A string without the separator is one piece. *)
Lemma split_none s sep : Forall (fun c => c <> sep) s -> split s sep = [s].
Proof.
  induction 1 as [|c s Hc _ IH]; simpl; [reflexivity|].
  apply Z.eqb_neq in Hc. rewrite Hc, IH. reflexivity.
Qed.

(** The first separator ends the first piece. *)
Lemma split_app s sep rest :
  Forall (fun c => c <> sep) s ->
  split (s ++ sep :: rest) sep = s :: split rest sep.
Proof.
  induction 1 as [|c s Hc _ IH]; simpl.
  - rewrite Z.eqb_refl. reflexivity.
  - apply Z.eqb_neq in Hc. rewrite Hc, IH. reflexivity.
Qed.

(** Joining pieces that are free of the separator and splitting again gives
    the pieces back, also in front of a further separator. *)
Lemma split_join_app l sep rest :
  l <> [] ->
  Forall (Forall (fun c => c <> sep)) l ->
  split (join l [sep] ++ sep :: rest) sep = l ++ split rest sep.
Proof.
  intros Hne Hl. induction Hl as [|p l Hp Hl IH]; [congruence|].
  destruct l as [|q l].
  - simpl. apply split_app, Hp.
  - change (join (p :: q :: l) [sep]) with (p ++ sep :: join (q :: l) [sep]).
    replace ((p ++ sep :: join (q :: l) [sep]) ++ sep :: rest)
      with (p ++ sep :: (join (q :: l) [sep] ++ sep :: rest))
      by (rewrite <- app_assoc; reflexivity).
    rewrite split_app by exact Hp.
    rewrite IH by discriminate. reflexivity.
Qed.

Lemma split_join l sep :
  l <> [] ->
  Forall (Forall (fun c => c <> sep)) l ->
  split (join l [sep]) sep = l.
Proof.
  intros Hne Hl. induction Hl as [|p l Hp Hl IH]; [congruence|].
  destruct l as [|q l].
  - simpl. apply split_none, Hp.
  - change (join (p :: q :: l) [sep]) with (p ++ sep :: join (q :: l) [sep]).
    rewrite split_app by exact Hp.
    rewrite IH by discriminate. reflexivity.
Qed.

(** Whatever holds of every unit of a string holds of its pieces, of its
    trimmed form, and of a join whose separator has it too. *)
Lemma Forall_split (P : Z -> Prop) s sep :
  Forall P s -> Forall (Forall P) (split s sep).
Proof.
  induction 1 as [|c s Hc Hs IH]; simpl.
  - repeat constructor.
  - destruct (c =? sep).
    + constructor; [constructor | exact IH].
    + destruct (split s sep) as [|q qs].
      * repeat constructor. exact Hc.
      * inversion IH; subst. constructor; [constructor|]; assumption.
Qed.

Lemma Forall_trimStart (P : Z -> Prop) s : Forall P s -> Forall P (trimStart s).
Proof.
  induction 1 as [|c s Hc Hs IH]; simpl; [constructor|].
  destruct (isWhiteSpace c); [exact IH | constructor; assumption].
Qed.

Lemma Forall_trim (P : Z -> Prop) s : Forall P s -> Forall P (trim s).
Proof.
  intros H. unfold trim, trimEnd.
  apply Forall_rev, Forall_trimStart, Forall_rev, Forall_trimStart, H.
Qed.

Lemma Forall_join (P : Z -> Prop) l (glue : jsstring) :
  Forall (Forall P) l -> Forall P glue -> Forall P (join l glue).
Proof.
  intros Hl Hsep. induction Hl as [|q l Hq Hl IH]; simpl; [constructor|].
  destruct l as [|q' l]; [exact Hq|].
  apply Forall_app; split; [exact Hq|].
  apply Forall_app; split; [exact Hsep | exact IH].
Qed.

Lemma replaceAll_id s a b : Forall (fun c => c <> a) s -> replaceAll s a b = s.
Proof.
  unfold replaceAll. induction 1 as [|c s Hc _ IH]; simpl; [reflexivity|].
  apply Z.eqb_neq in Hc. rewrite Hc, IH. reflexivity.
Qed.

Lemma Forall_replaceAll (P : Z -> Prop) s a b :
  P b -> Forall (fun c => c <> a -> P c) s -> Forall P (replaceAll s a b).
Proof.
  intros Hb. unfold replaceAll. induction 1 as [|c s Hc _ IH]; simpl; constructor; auto.
  destruct (Z.eqb_spec c a); auto.
Qed.

(** [includes]: a string includes what it has in its middle. *)
Lemma startsWith_app p s : startsWith (p ++ s) p = true.
Proof. induction p as [|a p IH]; simpl; [reflexivity|]. rewrite Z.eqb_refl. exact IH. Qed.

Lemma includes_app s1 p s2 : includes (s1 ++ p ++ s2) p = true.
Proof.
  induction s1 as [|a s1 IH].
  - simpl. destruct (p ++ s2) eqn:E; simpl; rewrite <- ?E, startsWith_app; reflexivity.
  - simpl. rewrite IH. apply orb_true_r.
Qed.

Lemma includes_app_l s1 s2 p : includes s2 p = true -> includes (s1 ++ s2) p = true.
Proof.
  intros H. induction s1 as [|a s1 IH]; [exact H|].
  cbn [app includes]. rewrite IH. apply orb_true_r.
Qed.

Lemma startsWith_includes s p : startsWith s p = true -> includes s p = true.
Proof. intros H. destruct s; simpl; rewrite H; reflexivity. Qed.

Lemma includes_join l (glue : jsstring) e : In e l -> includes (join l glue) e = true.
Proof.
  induction l as [|q l IH]; [intros []|].
  intros [->|Hin].
  - destruct l as [|q' l].
    + simpl. rewrite <- (app_nil_r e) at 1. apply (includes_app [] e []).
    + change (join (e :: q' :: l) glue) with ([] ++ e ++ (glue ++ join (q' :: l) glue)).
      apply includes_app.
  - destruct l as [|q' l]; [destruct Hin|].
    change (join (q :: q' :: l) glue) with (q ++ glue ++ join (q' :: l) glue).
    rewrite app_assoc. apply includes_app_l, IH, Hin.
Qed.

(** Membership in a list of strings, refuted by running the comparison. *)
Lemma not_In_by_computation (x : jsstring) l :
  forallb (fun e => negb (bool_decide (e = x))) l = true -> ~ In x l.
Proof.
  intros H Hin. rewrite forallb_forall in H. specialize (H x Hin).
  rewrite bool_decide_eq_true_2 in H by reflexivity. discriminate H.
Qed.

End StringFacts.

(** ** The digest and the encoding *)

Section DigestFacts.

Import SHA256.

Lemma round_length st kw : length (round st kw) = length st.
Proof.
  destruct st as [|a [|b [|c [|d [|e [|f [|g [|h [|i t]]]]]]]]]; reflexivity.
Qed.

Lemma fold_round_length l : forall st, length (fold_left round l st) = length st.
Proof.
  induction l as [|kw l IH]; intros st; simpl; [reflexivity|].
  rewrite IH. apply round_length.
Qed.

Lemma compress_length h block : length (compress h block) = length h.
Proof.
  unfold compress. rewrite length_zip_with, fold_round_length. lia.
Qed.

Lemma fold_compress_length blocks : forall h,
  length (fold_left compress blocks h) = length h.
Proof.
  induction blocks as [|b blocks IH]; intros h; simpl; [reflexivity|].
  rewrite IH. apply compress_length.
Qed.

Lemma flat_map_be4_length (ws : list Z) : length (flat_map (be 4) ws) = (4 * length ws)%nat.
Proof.
  induction ws as [|x ws IH]; [reflexivity|].
  cbn [flat_map]. rewrite length_app, IH. cbn [length be seq rev app map]. lia.
Qed.

(** The digest is 32 bytes long, each in [0, 256). *)
Lemma digest_length msg : length (digest msg) = 32%nat.
Proof.
  unfold digest. rewrite flat_map_be4_length, fold_compress_length. reflexivity.
Qed.

Lemma digest_bytes msg : Forall (fun x => 0 <= x < 256) (digest msg).
Proof.
  unfold digest. apply Forall_forall. intros x Hx.
  apply list_elem_of_In, in_flat_map in Hx as (wd & _ & Hx).
  unfold be in Hx. apply in_map_iff in Hx as (k & <- & _).
  change 0xFF with (Z.ones 8). rewrite Z.land_ones by lia.
  apply Z.mod_pos_bound. lia.
Qed.

Definition lowerHex (c : Z) : Prop := 48 <= c <= 57 \/ 97 <= c <= 102.

Lemma hexDigit_lowerHex d : 0 <= d < 16 -> lowerHex (hexDigit d).
Proof. intros H. unfold hexDigit, lowerHex. destruct (Z.ltb_spec d 10); lia. Qed.

Lemma hex_length b : length (hex b) = (2 * length b)%nat.
Proof.
  unfold hex. induction b as [|x b IH]; [reflexivity|].
  cbn [flat_map]. rewrite length_app, IH. cbn [length]. lia.
Qed.

Lemma hex_lowerHex b : Forall (fun x => 0 <= x < 256) b -> Forall lowerHex (hex b).
Proof.
  unfold hex. induction 1 as [|x b Hx _ IH]; [constructor|].
  cbn [flat_map app]. constructor; [|constructor; [|exact IH]].
  - apply hexDigit_lowerHex. rewrite Z.shiftr_div_pow2 by lia.
    change (2 ^ 4) with 16. split; [apply Z.div_pos; lia | apply Z.div_lt_upper_bound; lia].
  - apply hexDigit_lowerHex. change 0xF with (Z.ones 4).
    rewrite Z.land_ones by lia. apply Z.mod_pos_bound. lia.
Qed.

(** The version string: sixteen lowercase hexadecimal digits. *)
Lemma versionOf_shape body :
  length (versionOf body) = 16%nat /\ Forall lowerHex (versionOf body).
Proof.
  unfold versionOf, sha256hex. split.
  - rewrite length_take, hex_length, digest_length. reflexivity.
  - apply Forall_take, hex_lowerHex, digest_bytes.
Qed.

(** A line feed is encoded on its own: the bytes of a text that has one
    are the bytes up to it followed by the bytes after it. *)
Lemma from_utf8_LF : forall (n : nat) (a b : jsstring), (length a <= n)%nat ->
  Buffer.from_utf8 (a ++ 10 :: b) = Buffer.from_utf8 (a ++ [10]) ++ Buffer.from_utf8 b.
Proof.
  induction n as [|n IH]; intros a b Hn.
  - destruct a; [reflexivity | simpl in Hn; lia].
  - destruct a as [|c a]; [reflexivity|].
    simpl in Hn. cbn [app Buffer.from_utf8].
    destruct (Buffer.isHighSurrogate c).
    + destruct a as [|d a].
      * reflexivity.
      * cbn [app]. destruct (Buffer.isLowSurrogate d).
        -- rewrite <- app_assoc. f_equal. apply IH. simpl in Hn. lia.
        -- rewrite <- app_assoc. f_equal. apply (IH (d :: a)). simpl in *. lia.
    + destruct (Buffer.isLowSurrogate c); rewrite <- app_assoc; f_equal; apply IH; lia.
Qed.

End DigestFacts.

(** ** The body serializer *)

(** The units the sanitizer replaces. *)
Definition plain (c : Z) : Prop := c <> 9 /\ c <> 13 /\ c <> 10.

Lemma Forall_replaceAll_keep (P : Z -> Prop) s a b :
  P b -> Forall P s -> Forall P (replaceAll s a b).
Proof.
  intros Hb Hs. apply Forall_replaceAll; [exact Hb|].
  eapply Forall_impl; [exact Hs | auto].
Qed.

Lemma tsvEscape_plain s : Forall plain (tsvEscape s).
Proof.
  unfold tsvEscape, plain.
  apply Forall_replaceAll; [lia|].
  assert (H13 : Forall (fun c => c <> 9 /\ c <> 13) (replaceAll (replaceAll s 9 32) 13 32)).
  { apply Forall_replaceAll; [lia|].
    assert (H9 : Forall (fun c => c <> 9) (replaceAll s 9 32)).
    { apply Forall_replaceAll; [lia|]. induction s; constructor; auto. }
    eapply Forall_impl; [exact H9 | simpl; intros; lia]. }
  eapply Forall_impl; [exact H13 | simpl; intros; lia].
Qed.

Lemma tsvEscape_id s : Forall plain s -> tsvEscape s = s.
Proof.
  intros H. unfold tsvEscape.
  rewrite (replaceAll_id s 9) by (eapply Forall_impl; [exact H | unfold plain; simpl; intros; lia]).
  rewrite (replaceAll_id s 13) by (eapply Forall_impl; [exact H | unfold plain; simpl; intros; lia]).
  apply replaceAll_id. eapply Forall_impl; [exact H | unfold plain; simpl; intros; lia].
Qed.

(** The tags value in the words of the specification: split on commas,
    trim each piece, drop the empty pieces, join with commas. *)
Definition tagsAsSpecified (raw : jsstring) : jsstring :=
  join (filter (fun t => t <> []) (map trim (split raw 44))) (js ",").

Lemma normalizeTags_spec raw : normalizeTags raw = tagsAsSpecified raw.
Proof.
  unfold normalizeTags, tagsAsSpecified. f_equal.
  apply list_filter_iff. intros [|c t]; simpl; split; congruence.
Qed.

Lemma tagsAsSpecified_plain raw : Forall plain raw -> Forall plain (tagsAsSpecified raw).
Proof.
  intros H. unfold tagsAsSpecified. apply Forall_join.
  - apply Forall_forall. intros t Ht.
    apply list_elem_of_filter in Ht as [_ Ht].
    apply list_elem_of_In, in_map_iff in Ht as (u & <- & Hu).
    apply Forall_trim.
    pose proof (Forall_split plain raw 44 H) as Hs.
    rewrite Forall_forall in Hs. apply Hs, list_elem_of_In, Hu.
  - repeat constructor; unfold plain; simpl; lia.
Qed.

(** The line of a row splits on tabs into the four fields it was joined
    from, whatever the row holds: the sanitizer has taken the tabs out. *)
Lemma rowLine_split (r : Row) : split (rowLine r) 9 = rowFields r.
Proof.
  unfold rowLine, TAB. apply split_join; [discriminate|].
  unfold rowFields.
  repeat constructor;
    (eapply Forall_impl; [apply tsvEscape_plain | unfold plain; simpl; intros; lia]).
Qed.

Lemma rowLine_no_LF (r : Row) : Forall (fun c => c <> 10) (rowLine r).
Proof.
  unfold rowLine. apply Forall_join; [|repeat constructor; unfold TAB; lia].
  unfold rowFields.
  repeat constructor;
    (eapply Forall_impl; [apply tsvEscape_plain | unfold plain; simpl; intros; lia]).
Qed.

(** The body splits on line feeds into the header line, one line per row,
    and the empty piece after the final line feed. *)
Lemma buildTSVBody_split (rows : list Row) :
  split (buildTSVBody rows) 10 = headerLine :: map rowLine rows ++ [[]].
Proof.
  unfold buildTSVBody, LF.
  rewrite (split_join_app (headerLine :: map rowLine rows) 10 []); [reflexivity|discriminate|].
  constructor.
  - vm_compute. repeat constructor; discriminate.
  - apply Forall_forall. intros l Hl.
    apply list_elem_of_In, in_map_iff in Hl as (r & <- & _). apply rowLine_no_LF.
Qed.

(** A table whose one row has a tab inside a tag. *)
Definition tabbed_md : jsstring :=
  js "| slug | title | url | tags |" ++ [10]
  ++ js "|---|---|---|---|" ++ [10]
  ++ js "| a | Alpha | https://a.example | x" ++ [9] ++ js "y |" ++ [10].

(** C7, as stated, at that table: the row is parsed and passes the
    validator, and the tags field that is written, "x y", differs from the
    split, trimmed, filtered and rejoined tags, which keep the tab. *)
Lemma tags_field_counterexample :
  let r := entry (js "a") (js "Alpha") (js "https://a.example") (js "x" ++ [9] ++ js "y") in
  parseMarkdownTable tabbed_md = inr ([js "slug"; js "title"; js "url"; js "tags"], [r])
  /\ validateRows schemeOnly [r] = inr tt
  /\ tagsAsSpecified (getProp r (js "tags")) = js "x" ++ [9] ++ js "y"
  /\ split (rowLine r) 9 !! 3%nat = Some (js "x y")
  /\ split (rowLine r) 9 !! 3%nat <> Some (tagsAsSpecified (getProp r (js "tags"))).
Proof.
  repeat split; try (vm_compute; reflexivity).
  vm_compute. discriminate.
Qed.

(** C7 (amended). For every row, the fourth tab-separated field of its
    serialized line is the sanitizer applied to the raw tags string split
    on commas, each piece trimmed, empty pieces dropped, and the rest
    rejoined with commas in their order, duplicates kept; a row whose tags
    are "a, ,b,,c" has the field "a,b,c". *)
Theorem tags_field_serialized (r : Row) :
  split (rowLine r) 9 !! 3%nat
    = Some (tsvEscape (tagsAsSpecified (getProp r (js "tags"))))
  /\ split (rowLine (<[js "tags" := js "a, ,b,,c"]> r)) 9 !! 3%nat = Some (js "a,b,c").
Proof.
  split.
  - rewrite rowLine_split. unfold rowFields. rewrite normalizeTags_spec. reflexivity.
  - rewrite rowLine_split. unfold rowFields, getProp.
    rewrite lookup_insert_eq. vm_compute. reflexivity.
Qed.

(** Re-parsing, in the words of the specification: the lines of the text
    (its pieces between line feeds, up to the one that ends it), without
    the column-header line, each split on tabs. *)
Definition textLines (body : jsstring) : list jsstring := removelast (split body 10).

Definition reparse (body : jsstring) : list (list jsstring) :=
  map (fun l => split l 9) (tail (textLines body)).

(** What the serializer emits for a row, before sanitizing. *)
Definition emitted (r : Row) : list jsstring :=
  [trim (getProp r (js "slug")); trim (getProp r (js "title"));
   trim (getProp r (js "url")); tagsAsSpecified (getProp r (js "tags"))].

Definition plainRow (r : Row) : Prop :=
  Forall (fun k => Forall plain (getProp r k)) required.

Lemma rowFields_plain (r : Row) : plainRow r -> rowFields r = emitted r.
Proof.
  unfold plainRow, required, rowFields, emitted. intros H.
  inversion H as [|? ? Hs H1]; subst. inversion H1 as [|? ? Ht H2]; subst.
  inversion H2 as [|? ? Hu H3]; subst. inversion H3 as [|? ? Hg _]; subst.
  rewrite normalizeTags_spec.
  rewrite !tsvEscape_id; auto using Forall_trim, tagsAsSpecified_plain.
Qed.

(** C4. For every row set whose slug, title, url and tags cells hold no
    tab, carriage return or line feed (valid or not), the serialized body
    ends with a line feed, and splitting it into lines, dropping the
    column-header line and splitting each line on tabs gives back, row by
    row and in order, the four values the serializer emitted: the trimmed
    slug, title and url and the normalized tags. *)
Theorem serialize_reparse_roundtrip (rows : list Row) :
  Forall plainRow rows ->
  last (split (buildTSVBody rows) 10) = Some []
  /\ reparse (buildTSVBody rows) = map emitted rows.
Proof.
  intros Hrows. unfold reparse, textLines. rewrite buildTSVBody_split. split.
  - rewrite app_comm_cons. apply last_snoc.
  - rewrite app_comm_cons, removelast_last. simpl.
    rewrite map_map. apply map_ext_in. intros r Hr.
    rewrite rowLine_split. apply rowFields_plain.
    rewrite List.Forall_forall in Hrows. apply Hrows, Hr.
Qed.

(** ** The markdown table parser *)

(** A line that, trimmed, starts with a pipe. *)
Definition pipeLine (l : jsstring) : bool := startsWith (trim l) PIPE.

(** Line [i] and the line right after it both start with a pipe. *)
Definition tableAt (lines : list jsstring) (i : nat) : Prop :=
  exists l l', lines !! i = Some l /\ lines !! S i = Some l'
               /\ pipeLine l = true /\ pipeLine l' = true.

Definition tableAtb (lines : list jsstring) (i : nat) : bool :=
  match lines !! i, lines !! S i with
  | Some l, Some l' => pipeLine l && pipeLine l'
  | _, _ => false
  end.

Lemma tableAt_tableAtb lines i : tableAt lines i <-> tableAtb lines i = true.
Proof.
  unfold tableAt, tableAtb. split.
  - intros (l & l' & -> & -> & -> & ->). reflexivity.
  - destruct (lines !! i) as [l|]; [|discriminate].
    destruct (lines !! S i) as [l'|]; [|discriminate].
    intros H. apply andb_true_iff in H as [H1 H2]. exists l, l'. auto.
Qed.

Lemma findStart_step l rest i0 :
  findStart (l :: rest) i0 =
    if pipeLine l && match rest with l' :: _ => pipeLine l' | [] => false end
    then Some i0 else findStart rest (S i0).
Proof.
  cbn [findStart]. unfold pipeLine.
  destruct (startsWith (trim l) PIPE) eqn:E; cbn [andb]; [|reflexivity].
  rewrite (startsWith_includes _ _ E). destruct rest; reflexivity.
Qed.

Lemma tableAt_0 l rest :
  tableAt (l :: rest) 0 <->
  pipeLine l && match rest with l' :: _ => pipeLine l' | [] => false end = true.
Proof.
  unfold tableAt. split.
  - intros (a & b & Ha & Hb & Pa & Pb). simpl in Ha, Hb.
    destruct rest as [|l' rest]; [discriminate|].
    simpl in Hb. injection Ha as <-. injection Hb as <-. rewrite Pa, Pb. reflexivity.
  - intros H. destruct rest as [|l' rest].
    + rewrite andb_false_r in H. discriminate.
    + apply andb_true_iff in H as [Pa Pb]. exists l, l'. auto.
Qed.

Lemma tableAt_S l rest i : tableAt (l :: rest) (S i) <-> tableAt rest i.
Proof. unfold tableAt. simpl. reflexivity. Qed.

Lemma findStart_Some lines : forall i0 k,
  findStart lines i0 = Some k <->
  exists i, k = (i0 + i)%nat /\ tableAt lines i /\ forall j, (j < i)%nat -> ~ tableAt lines j.
Proof.
  induction lines as [|l rest IH]; intros i0 k.
  - simpl. split; [discriminate|].
    intros (i & _ & (a & _ & Ha & _) & _). rewrite lookup_nil in Ha. discriminate.
  - rewrite findStart_step.
    destruct (pipeLine l && _) eqn:E.
    + apply tableAt_0 in E. split.
      * intros [= <-]. exists 0%nat. repeat split; [lia | exact E | intros j Hj; lia].
      * intros (i & -> & Hi & Hmin). destruct i as [|i]; [f_equal; lia|].
        exfalso. apply (Hmin 0%nat); [lia | exact E].
    + rewrite IH. split.
      * intros (i & -> & Hi & Hmin). exists (S i).
        repeat split; [lia | exact (proj2 (tableAt_S l rest i) Hi) |].
        intros [|j] Hj.
        -- rewrite tableAt_0, E. discriminate.
        -- rewrite tableAt_S. apply Hmin. lia.
      * intros ([|i] & -> & Hi & Hmin).
        -- apply tableAt_0 in Hi. congruence.
        -- exists i. repeat split; [lia | exact (proj1 (tableAt_S l rest i) Hi) |].
           intros j Hj. rewrite <- tableAt_S. apply Hmin. lia.
Qed.

Lemma findStart_None lines : forall i0,
  findStart lines i0 = None <-> ~ exists i, tableAt lines i.
Proof.
  induction lines as [|l rest IH]; intros i0.
  - simpl. split; [|reflexivity].
    intros _ (i & a & _ & Ha & _). rewrite lookup_nil in Ha. discriminate.
  - rewrite findStart_step.
    destruct (pipeLine l && _) eqn:E.
    + split; [discriminate|]. intros H. exfalso. apply H. exists 0%nat. apply tableAt_0, E.
    + rewrite IH. split.
      * intros H ([|i] & Hi).
        -- apply tableAt_0 in Hi. congruence.
        -- apply H. exists i. exact (proj1 (tableAt_S l rest i) Hi).
      * intros H (i & Hi). apply H. exists (S i). exact (proj2 (tableAt_S l rest i) Hi).
Qed.

(** C8. The parser raises the "no table found" error exactly when no line
    that starts (trimmed) with a pipe is directly followed by another such
    line; and when there is such a pair, the scan stops at the first one,
    whose upper line is then the header line the result is built from. *)
Theorem no_table_iff_no_pipe_pair (mdText : jsstring) :
  let lines := splitLines mdText in
  (parseMarkdownTable mdText = inl NoTable <-> ~ exists i, tableAt lines i)
  /\ forall i, tableAt lines i -> (forall j, (j < i)%nat -> ~ tableAt lines j) ->
       findStart lines 0 = Some i
       /\ parseMarkdownTable mdText =
            let headers := splitCells (trim (lines !!! i)) in
            if includes (trim (lines !!! (i + 1)%nat)) (js "---")
            then inr (headers, parseRows headers (drop (i + 2) lines))
            else inl NoDelimiter.
Proof.
  intros lines. split.
  - rewrite <- (findStart_None lines 0). unfold parseMarkdownTable. fold lines.
    destruct (findStart lines 0) as [start|]; [|tauto].
    split; [|discriminate].
    destruct (includes _ _); simpl; [discriminate|].
    intros H. exfalso. revert H. vm_compute. discriminate.
  - intros i Hi Hmin.
    assert (Hf : findStart lines 0 = Some i).
    { apply findStart_Some. exists i. auto. }
    split; [exact Hf|].
    unfold parseMarkdownTable. fold lines. rewrite Hf.
    destruct (includes _ _); reflexivity.
Qed.

(** ** The row validator *)

Section ValidatorFacts.

Variable URL_protocol : jsstring -> option jsstring.

Definition slugOf (r : Row) : jsstring := trim (getProp r (js "slug")).

(** The trimmed slug of row [k] (counted from 0), if there is such a row. *)
Definition slugAt (rows : list Row) (k : nat) : option jsstring :=
  slugOf <$> rows !! k.

Lemma truthy_nonempty (s : jsstring) : s <> [] -> negb (truthy s) = false.
Proof. destruct s; [congruence | reflexivity]. Qed.

(** Once a slug is in [seen], every later row with it is reported against
    the index stored there. *)
Lemma checkDuplicates_seen s first : s <> [] ->
  forall rows i0 (seen : gmap (list Z) nat) j,
    slugAt rows j = Some s -> seen !! s = Some first ->
    In (duplicateMsg s first (i0 + j + 1)) (checkDuplicates rows i0 seen).
Proof.
  intros Hs. induction rows as [|r rest IH]; intros i0 seen j Hj Hseen.
  - unfold slugAt in Hj. rewrite lookup_nil in Hj. discriminate.
  - cbn [checkDuplicates]. fold (slugOf r). destruct j as [|j].
    + assert (Hr : slugOf r = s) by (unfold slugAt in Hj; cbn in Hj; congruence).
      rewrite Hr, (truthy_nonempty s Hs), Hseen.
      left. f_equal. lia.
    + assert (Hj' : slugAt rest j = Some s) by exact Hj.
      replace (i0 + S j + 1)%nat with (S i0 + j + 1)%nat by lia.
      destruct (negb (truthy (slugOf r))); [exact (IH (S i0) seen j Hj' Hseen)|].
      destruct (seen !! slugOf r) eqn:E.
      * right. exact (IH (S i0) seen j Hj' Hseen).
      * apply (IH (S i0) _ j Hj').
        rewrite lookup_insert_ne; [assumption | congruence].
Qed.

(** The first row with a slug puts it into [seen]; every later row with it
    is reported against that first row. *)
Lemma checkDuplicates_first s : s <> [] ->
  forall rows i0 (seen : gmap (list Z) nat) i j,
    (i < j)%nat -> slugAt rows i = Some s -> slugAt rows j = Some s ->
    (forall k, (k < i)%nat -> slugAt rows k <> Some s) ->
    seen !! s = None ->
    In (duplicateMsg s (i0 + i + 1) (i0 + j + 1)) (checkDuplicates rows i0 seen).
Proof.
  intros Hs. induction rows as [|r rest IH]; intros i0 seen i j Hij Hi Hj Hmin Hseen.
  - unfold slugAt in Hi. rewrite lookup_nil in Hi. discriminate.
  - destruct j as [|j]; [lia|].
    assert (Hj' : slugAt rest j = Some s) by exact Hj.
    cbn [checkDuplicates]. fold (slugOf r).
    replace (i0 + S j + 1)%nat with (S i0 + j + 1)%nat by lia.
    destruct i as [|i].
    + assert (Hr : slugOf r = s) by (unfold slugAt in Hi; cbn in Hi; congruence).
      rewrite Hr, (truthy_nonempty s Hs), Hseen.
      replace (i0 + 0 + 1)%nat with (i0 + 1)%nat by lia.
      apply (checkDuplicates_seen s (i0 + 1)%nat Hs rest (S i0) _ j Hj').
      apply lookup_insert_eq.
    + assert (Hi' : slugAt rest i = Some s) by exact Hi.
      assert (Hmin' : forall k, (k < i)%nat -> slugAt rest k <> Some s).
      { intros k Hk. apply (Hmin (S k)). lia. }
      assert (H0 : slugOf r <> s).
      { intros E. apply (Hmin 0%nat); [lia|]. unfold slugAt. cbn. congruence. }
      assert (Hlt : (i < j)%nat) by lia.
      replace (i0 + S i + 1)%nat with (S i0 + i + 1)%nat by lia.
      destruct (negb (truthy (slugOf r)));
        [exact (IH (S i0) seen i j Hlt Hi' Hj' Hmin' Hseen)|].
      destruct (seen !! slugOf r) eqn:E.
      * right. exact (IH (S i0) seen i j Hlt Hi' Hj' Hmin' Hseen).
      * apply (IH (S i0) _ i j Hlt Hi' Hj' Hmin').
        rewrite lookup_insert_ne; auto.
Qed.

Lemma validateRows_fails rows e :
  In e (collectErrors URL_protocol rows) ->
  validateRows URL_protocol rows
    = inl (Error (validationMessage (collectErrors URL_protocol rows)))
  /\ includes (validationMessage (collectErrors URL_protocol rows)) (js "- " ++ e) = true.
Proof.
  intros He. unfold validateRows. split.
  - destruct (collectErrors URL_protocol rows); [destruct He | reflexivity].
  - unfold validationMessage.
    set (l := map _ _).
    assert (Hl : includes (join l [10]) (js "- " ++ e) = true).
    { apply includes_join. unfold l. apply in_map_iff. exists e. auto. }
    rewrite app_assoc. apply includes_app_l, Hl.
Qed.

End ValidatorFacts.

(** A table whose rows stop short of the slug column. *)
Definition slugless_md : jsstring :=
  js "| title | url | tags | slug |" ++ [10]
  ++ js "|---|---|---|---|" ++ [10]
  ++ js "| One | https://one.example | x |" ++ [10]
  ++ js "| Two | https://two.example | y |" ++ [10].

(** C6, as stated, at that table: the trimmed slug value of rows 1 and 2
    is the same, the empty string, and the report, which has the two rows
    down for their empty slugs, has no line for the repeat. *)
Lemma duplicate_empty_slug_counterexample :
  let rows := [mkEntry "" "One" "https://one.example" "x";
               mkEntry "" "Two" "https://two.example" "y"] in
  parseMarkdownTable slugless_md = inr ([js "title"; js "url"; js "tags"; js "slug"], rows)
  /\ slugAt rows 0 = Some [] /\ slugAt rows 1 = Some []
  /\ collectErrors schemeOnly rows = [js "Row 1: empty slug"; js "Row 2: empty slug"]
  /\ ~ In (duplicateMsg [] (0 + 1) (1 + 1)) (collectErrors schemeOnly rows).
Proof.
  repeat split; try (vm_compute; reflexivity).
  apply not_In_by_computation. vm_compute. reflexivity.
Qed.

(** C6 (amended). For every row set in which some non-empty trimmed slug
    value occurs in two or more rows, validation fails with the aggregated
    error, and for each repeat occurrence the report has a line naming the
    slug with the 1-based index of the row that first had it and the
    1-based index of the repeat row. *)
Theorem duplicate_slugs_reported
    (URL_protocol : jsstring -> option jsstring) (rows : list Row)
    (s : jsstring) (i j : nat) :
  s <> [] -> (i < j)%nat ->
  slugAt rows i = Some s -> slugAt rows j = Some s ->
  (forall k, (k < i)%nat -> slugAt rows k <> Some s) ->
  let errors := collectErrors URL_protocol rows in
  let line := duplicateMsg s (i + 1) (j + 1) in
  In line errors
  /\ validateRows URL_protocol rows = inl (Error (validationMessage errors))
  /\ includes (validationMessage errors) (js "- " ++ line) = true.
Proof.
  intros Hs Hij Hi Hj Hmin errors line.
  assert (Hin : In line errors).
  { unfold errors, collectErrors. apply in_or_app. right.
    apply (checkDuplicates_first s Hs rows 0 ∅ i j Hij Hi Hj Hmin).
    apply lookup_empty. }
  split; [exact Hin|]. apply validateRows_fails, Hin.
Qed.

(** ** The run of the builder *)

Section MainFacts.

Variable URL_protocol : jsstring -> option jsstring.

Lemma bind_throw {A B} (m : M A) (f : A -> M B) w e w' :
  m w = (inl e, w') -> (m ≫= f) w = (inl e, w').
Proof. intros H. unfold mbind, M_bind. rewrite H. reflexivity. Qed.

Lemma bind_value {A B} (m : M A) (f : A -> M B) w a w' :
  m w = (inr a, w') -> (m ≫= f) w = f a w'.
Proof. intros H. unfold mbind, M_bind. rewrite H. reflexivity. Qed.

(** The paths the script touches are different paths. *)
Lemma INPUT_not_OUT : INPUT_MD <> OUT_DIR.
Proof. vm_compute. discriminate. Qed.

Lemma inside_not_OUT name : path_join OUT_DIR name <> OUT_DIR.
Proof.
  intros H. apply (f_equal (@length Z)) in H. unfold path_join in H.
  rewrite !length_app in H. change (length (js "/")) with 1%nat in H. lia.
Qed.

Lemma inside_not_INPUT name : path_join OUT_DIR name <> INPUT_MD.
Proof. intros H. apply (f_equal head) in H. vm_compute in H. discriminate. Qed.

Lemma hashed_not_stable v :
  path_join OUT_DIR (js "registry." ++ v ++ js ".tsv")
    <> path_join OUT_DIR (js "registry.tsv").
Proof.
  intros H. apply (f_equal (@length Z)) in H. unfold path_join in H.
  rewrite !length_app in H.
  change (length (js "registry.")) with 9%nat in H.
  change (length (js ".tsv")) with 4%nat in H.
  change (length (js "registry.tsv")) with 12%nat in H. lia.
Qed.

(** What [ensureDir OUT_DIR] leaves behind when it does not throw. *)
Definition withDist (w : World) : World :=
  match files w !! OUT_DIR with
  | None => {| files := <[OUT_DIR := Dir]> (files w); stdout := stdout w |}
  | Some _ => w
  end.

Lemma ensureDir_ok w :
  (forall d, files w !! OUT_DIR <> Some (File d)) ->
  ensureDir OUT_DIR w = (inr tt, withDist w).
Proof.
  intros H. unfold ensureDir, mkdirSync, withDist.
  destruct (files w !! OUT_DIR) as [[d|]|] eqn:E; [|reflexivity..].
  exfalso. exact (H d eq_refl).
Qed.

Lemma withDist_OUT w :
  (forall d, files w !! OUT_DIR <> Some (File d)) ->
  files (withDist w) !! OUT_DIR = Some Dir.
Proof.
  intros H. unfold withDist.
  destruct (files w !! OUT_DIR) as [[d|]|] eqn:E.
  - exfalso. exact (H d eq_refl).
  - exact E.
  - apply lookup_insert_eq.
Qed.

Lemma withDist_other w p : p <> OUT_DIR -> files (withDist w) !! p = files w !! p.
Proof.
  intros H. unfold withDist.
  destruct (files w !! OUT_DIR); [reflexivity|].
  apply lookup_insert_ne. congruence.
Qed.

Lemma withDist_stdout w : stdout (withDist w) = stdout w.
Proof. unfold withDist. destruct (files w !! OUT_DIR); reflexivity. Qed.

(** A computation under which [OUT_DIR] stays the directory it is. *)
Definition keepsDist {A} (m : M A) : Prop :=
  forall w, files w !! OUT_DIR = Some Dir -> files (m w).2 !! OUT_DIR = Some Dir.

Lemma keepsDist_bind {A B} (m : M A) (f : A -> M B) :
  keepsDist m -> (forall a, keepsDist (f a)) -> keepsDist (m ≫= f).
Proof.
  intros Hm Hf w Hw. unfold mbind, M_bind.
  specialize (Hm w Hw). destruct (m w) as [[e|a] w']; [exact Hm|].
  apply Hf, Hm.
Qed.

Lemma keepsDist_liftE {A} (r : exn + A) : keepsDist (liftE r).
Proof. intros w Hw. exact Hw. Qed.

Lemma keepsDist_read p : keepsDist (readFileSync p).
Proof.
  intros w Hw. unfold readFileSync. destruct (files w !! p) as [[d|]|]; exact Hw.
Qed.

Lemma keepsDist_write name buf : keepsDist (writeFileSync (path_join OUT_DIR name) buf).
Proof.
  intros w Hw. unfold writeFileSync.
  destruct (files w !! path_join OUT_DIR name) as [[d|]|]; cbn;
    rewrite ?lookup_insert_ne by apply inside_not_OUT; exact Hw.
Qed.

Lemma keepsDist_log line : keepsDist (console_log line).
Proof. intros w Hw. exact Hw. Qed.

Lemma writeFileSync_ok p buf w :
  files w !! p <> Some Dir ->
  writeFileSync p buf w
    = (inr tt, {| files := <[p := File buf]> (files w); stdout := stdout w |}).
Proof.
  intros H. unfold writeFileSync.
  destruct (files w !! p) as [[d|]|]; [reflexivity | congruence | reflexivity].
Qed.

Lemma readFileSync_withDist w :
  readFileSync INPUT_MD (withDist w) =
    (match files w !! INPUT_MD with
     | Some (File data) => inr (Buffer.toString_utf8 data)
     | Some Dir => inl (SystemError "EISDIR" INPUT_MD)
     | None => inl (SystemError "ENOENT" INPUT_MD)
     end, withDist w).
Proof.
  unfold readFileSync. rewrite (withDist_other w INPUT_MD INPUT_not_OUT).
  destruct (files w !! INPUT_MD) as [[d|]|]; reflexivity.
Qed.

(** The run up to the validator, when the directory can be made and the
    input read and parsed. *)
Lemma main_validated w data hs rows :
  (forall d, files w !! OUT_DIR <> Some (File d)) ->
  files w !! INPUT_MD = Some (File data) ->
  parseMarkdownTable (Buffer.toString_utf8 data) = inr (hs, rows) ->
  main URL_protocol w =
    match validateRows URL_protocol rows with
    | inl e => (inl e, withDist w)
    | inr _ =>
        let version := versionOf (buildTSVBody rows) in
        let fullBuf := Buffer.from_utf8 ((js "#v=" ++ version ++ LF) ++ buildTSVBody rows) in
        let hashedName := js "registry." ++ version ++ js ".tsv" in
        (writeFileSync (path_join OUT_DIR (js "registry.tsv")) fullBuf;;
         writeFileSync (path_join OUT_DIR hashedName) fullBuf;;
         console_log (js "Built " ++ ofNat (length rows) ++ js " entries");;
         console_log (js "version: " ++ version);;
         console_log (js "dist/registry.tsv");;
         console_log (js "dist/" ++ hashedName)) (withDist w)
    end.
Proof.
  intros Hdir Hin Hparse. unfold main.
  rewrite (bind_value _ _ w tt (withDist w) (ensureDir_ok w Hdir)).
  assert (Hread : readFileSync INPUT_MD (withDist w)
                  = (inr (Buffer.toString_utf8 data), withDist w)).
  { rewrite readFileSync_withDist, Hin. reflexivity. }
  rewrite (bind_value _ _ _ _ _ Hread).
  assert (Hp : liftE (parseMarkdownTable (Buffer.toString_utf8 data)) (withDist w)
               = (inr (hs, rows), withDist w)).
  { unfold liftE. rewrite Hparse. reflexivity. }
  rewrite (bind_value _ _ _ _ _ Hp).
  destruct (validateRows URL_protocol rows) as [e|[]] eqn:Hv.
  - apply bind_throw. unfold liftE. reflexivity.
  - erewrite bind_value; [reflexivity|]. unfold liftE. reflexivity.
Qed.

Lemma keepsDist_main_rest :
  keepsDist
    (md ← readFileSync INPUT_MD;
     '(_, rows) ← liftE (parseMarkdownTable md);
     liftE (validateRows URL_protocol rows);;
     let body := buildTSVBody rows in
     let version := versionOf body in
     let meta := js "#v=" ++ version ++ LF in
     let full := meta ++ body in
     let fullBuf := Buffer.from_utf8 full in
     let hashedName := js "registry." ++ version ++ js ".tsv" in
     writeFileSync (path_join OUT_DIR (js "registry.tsv")) fullBuf;;
     writeFileSync (path_join OUT_DIR hashedName) fullBuf;;
     console_log (js "Built " ++ ofNat (length rows) ++ js " entries");;
     console_log (js "version: " ++ version);;
     console_log (js "dist/registry.tsv");;
     console_log (js "dist/" ++ hashedName)).
Proof.
  apply keepsDist_bind; [apply keepsDist_read|]. intros md.
  apply keepsDist_bind; [apply keepsDist_liftE|]. intros [hs rows].
  apply keepsDist_bind; [apply keepsDist_liftE|]. intros _.
  cbv zeta.
  repeat (apply keepsDist_bind; [first [apply keepsDist_write | apply keepsDist_log]|]; intros _).
  apply keepsDist_log.
Qed.

(** C10. On every run on which the directory can be made (nothing but a
    file of that name stands in the way), [dist] is a directory when the
    run is over, however it ends; it is made before the input is read, so
    a run that fails on a missing input file, on a parse error or on a
    validation error fails with that error and leaves the directory. *)
Theorem dist_created_before_reading (w : World) :
  (forall d, files w !! OUT_DIR <> Some (File d)) ->
  files (main URL_protocol w).2 !! OUT_DIR = Some Dir
  /\ (files w !! INPUT_MD = None ->
      main URL_protocol w = (inl (SystemError "ENOENT" INPUT_MD), withDist w))
  /\ (forall data e,
        files w !! INPUT_MD = Some (File data) ->
        parseMarkdownTable (Buffer.toString_utf8 data) = inl e ->
        main URL_protocol w = (inl e, withDist w))
  /\ (forall data hs rows e,
        files w !! INPUT_MD = Some (File data) ->
        parseMarkdownTable (Buffer.toString_utf8 data) = inr (hs, rows) ->
        validateRows URL_protocol rows = inl e ->
        main URL_protocol w = (inl e, withDist w)).
Proof.
  intros Hdir. repeat split.
  - unfold main.
    rewrite (bind_value _ _ w tt (withDist w) (ensureDir_ok w Hdir)).
    apply keepsDist_main_rest, withDist_OUT, Hdir.
  - intros Hin. unfold main.
    rewrite (bind_value _ _ w tt (withDist w) (ensureDir_ok w Hdir)).
    apply bind_throw. rewrite readFileSync_withDist, Hin. reflexivity.
  - intros data e Hin Hparse. unfold main.
    rewrite (bind_value _ _ w tt (withDist w) (ensureDir_ok w Hdir)).
    assert (Hread : readFileSync INPUT_MD (withDist w)
                    = (inr (Buffer.toString_utf8 data), withDist w)).
    { rewrite readFileSync_withDist, Hin. reflexivity. }
    rewrite (bind_value _ _ _ _ _ Hread).
    apply bind_throw. unfold liftE. rewrite Hparse. reflexivity.
  - intros data hs rows e Hin Hparse Hv.
    rewrite (main_validated w data hs rows Hdir Hin Hparse), Hv. reflexivity.
Qed.

(** C5. When the rows parsed from the input have at least one violation,
    the run ends in an error and no file is created or changed: every path
    other than the output directory itself holds what it held, and nothing
    is printed. When the directory could be made, the error is the one
    aggregated error of the validator. *)
Theorem invalid_rows_write_nothing (w : World) data hs rows :
  files w !! INPUT_MD = Some (File data) ->
  parseMarkdownTable (Buffer.toString_utf8 data) = inr (hs, rows) ->
  collectErrors URL_protocol rows <> [] ->
  exists e w',
    main URL_protocol w = (inl e, w')
    /\ (forall p, p <> OUT_DIR -> files w' !! p = files w !! p)
    /\ stdout w' = stdout w
    /\ ((forall d, files w !! OUT_DIR <> Some (File d)) ->
        e = Error (validationMessage (collectErrors URL_protocol rows))).
Proof.
  intros Hin Hparse Herr.
  assert (Hv : validateRows URL_protocol rows
               = inl (Error (validationMessage (collectErrors URL_protocol rows)))).
  { unfold validateRows. destruct (collectErrors URL_protocol rows); [congruence | reflexivity]. }
  destruct (files w !! OUT_DIR) as [[d|]|] eqn:E.
  - exists (SystemError "EEXIST" OUT_DIR), w. repeat split.
    + unfold main. apply bind_throw. unfold ensureDir, mkdirSync. rewrite E. reflexivity.
    + intros H. exfalso. exact (H d eq_refl).
  - exists (Error (validationMessage (collectErrors URL_protocol rows))), (withDist w).
    assert (Hdir : forall d, files w !! OUT_DIR <> Some (File d)) by (intros d; congruence).
    rewrite (main_validated w data hs rows Hdir Hin Hparse), Hv.
    repeat split; [apply withDist_other | apply withDist_stdout].
  - exists (Error (validationMessage (collectErrors URL_protocol rows))), (withDist w).
    assert (Hdir : forall d, files w !! OUT_DIR <> Some (File d)) by (intros d; congruence).
    rewrite (main_validated w data hs rows Hdir Hin Hparse), Hv.
    repeat split; [apply withDist_other | apply withDist_stdout].
Qed.

(** C2. For every validated row set (the directory can be made, the input
    parses to the rows, the rows pass the validator and neither target is a
    directory), the run succeeds and leaves the same bytes under
    [dist/registry.tsv] and under [dist/registry.<version>.tsv]: the UTF-8
    bytes of the line [#v=<version>] and its line feed, followed by the
    UTF-8 bytes of the body; [<version>] is the first 16 characters of the
    lowercase hexadecimal SHA-256 digest of the UTF-8 bytes of the body
    alone, and it has 16 characters. *)
Theorem artifact_written_twice (w : World) data hs rows :
  (forall d, files w !! OUT_DIR <> Some (File d)) ->
  files w !! INPUT_MD = Some (File data) ->
  parseMarkdownTable (Buffer.toString_utf8 data) = inr (hs, rows) ->
  validateRows URL_protocol rows = inr tt ->
  let body := buildTSVBody rows in
  let version := take 16 (SHA256.hex (SHA256.digest (Buffer.from_utf8 body))) in
  let content := Buffer.from_utf8 (js "#v=" ++ version ++ [10]) ++ Buffer.from_utf8 body in
  let stable := path_join OUT_DIR (js "registry.tsv") in
  let hashed := path_join OUT_DIR (js "registry." ++ version ++ js ".tsv") in
  files w !! stable <> Some Dir ->
  files w !! hashed <> Some Dir ->
  exists w',
    main URL_protocol w = (inr tt, w')
    /\ files w' !! stable = Some (File content)
    /\ files w' !! hashed = Some (File content)
    /\ length version = 16%nat /\ Forall lowerHex version.
Proof.
  intros Hdir Hin Hparse Hv body version content stable hashed Hs Hh.
  rewrite (main_validated w data hs rows Hdir Hin Hparse), Hv.
  fold body. change (versionOf body) with version. cbv zeta.
  fold stable. fold hashed.
  assert (Hc : Buffer.from_utf8 ((js "#v=" ++ version ++ LF) ++ body) = content).
  { unfold content, LF.
    replace ((js "#v=" ++ version ++ [10]) ++ body)
      with ((js "#v=" ++ version) ++ 10 :: body) by (rewrite <- !app_assoc; reflexivity).
    replace (js "#v=" ++ version ++ [10])
      with ((js "#v=" ++ version) ++ [10]) by (rewrite <- app_assoc; reflexivity).
    apply (from_utf8_LF _ (js "#v=" ++ version) body (Nat.le_refl _)). }
  rewrite Hc.
  set (w1 := {| files := <[stable := File content]> (files (withDist w));
                stdout := stdout (withDist w) |}).
  set (w2 := {| files := <[hashed := File content]> (files w1); stdout := stdout w1 |}).
  assert (H1 : writeFileSync stable content (withDist w) = (inr tt, w1)).
  { apply writeFileSync_ok. rewrite withDist_other by apply inside_not_OUT. exact Hs. }
  assert (H2 : writeFileSync hashed content w1 = (inr tt, w2)).
  { apply writeFileSync_ok. unfold w1. cbn [files].
    rewrite lookup_insert_ne by (intros E; symmetry in E; exact (hashed_not_stable _ E)).
    rewrite withDist_other by apply inside_not_OUT. exact Hh. }
  rewrite (bind_value _ _ _ _ _ H1), (bind_value _ _ _ _ _ H2).
  eexists. split; [reflexivity|].
  cbn [files console_log mbind M_bind]. unfold w2, w1. cbn [files].
  repeat split.
  - rewrite lookup_insert_ne by apply hashed_not_stable. apply lookup_insert_eq.
  - apply lookup_insert_eq.
  - apply (versionOf_shape body).
  - apply (versionOf_shape body).
Qed.

End MainFacts.

(** ** The static server *)

Module ServerFacts.

Import Server.
Local Open Scope string_scope.
Local Open Scope nat_scope.

Lemma length_append (x y : string) :
  String.length (x ++ y) = String.length x + String.length y.
Proof. induction x as [|a x IH]; simpl; [reflexivity | rewrite IH; reflexivity]. Qed.

Lemma get_append_r (x y : string) k : String.get (String.length x + k) (x ++ y) = String.get k y.
Proof. induction x as [|a x IH]; simpl; [reflexivity | exact IH]. Qed.

Lemma substring_all (y : string) : substring 0 (String.length y) y = y.
Proof. induction y as [|a y IH]; simpl; [reflexivity | rewrite IH; reflexivity]. Qed.

Lemma substring_append_r (x y : string) :
  substring (String.length x) (String.length y) (x ++ y) = y.
Proof. induction x as [|a x IH]; simpl; [apply substring_all | exact IH]. Qed.

Lemma append_assoc (x y z : string) : (x ++ y) ++ z = x ++ y ++ z.
Proof.
  induction x as [|a x IH]; [reflexivity|].
  change (String a ((x ++ y) ++ z) = String a (x ++ y ++ z)). f_equal. exact IH.
Qed.

Lemma HasPrefix_append (p x : string) : HasPrefix (p ++ x) p = true.
Proof.
  induction p as [|a p IH]; simpl; [reflexivity|].
  rewrite Ascii.eqb_refl. exact IH.
Qed.

Lemma HasSuffix_append (x suffix : string) : HasSuffix (x ++ suffix) suffix = true.
Proof.
  unfold HasSuffix. rewrite length_append.
  replace (String.length x + String.length suffix - String.length suffix)
    with (String.length x) by lia.
  rewrite substring_append_r, String.eqb_refl, andb_true_r.
  apply Nat.leb_le. lia.
Qed.

(** A path that ends in [.tsv] has the extension [.tsv], whatever comes
    before. *)
Lemma Ext_tsv (x : string) : Ext (x ++ ".tsv") = ".tsv".
Proof.
  unfold Ext. rewrite length_append.
  change (String.length ".tsv") with 4.
  replace (String.length x + 4) with (S (String.length x + 3)) by lia.
  cbn [extFrom]. rewrite get_append_r. cbn [String.get Ascii.eqb Bool.eqb].
  replace (String.length x + 3) with (S (String.length x + 2)) by lia.
  cbn [extFrom]. rewrite get_append_r. cbn [String.get Ascii.eqb Bool.eqb].
  replace (String.length x + 2) with (S (String.length x + 1)) by lia.
  cbn [extFrom]. rewrite get_append_r. cbn [String.get Ascii.eqb Bool.eqb].
  replace (String.length x + 1) with (S (String.length x + 0)) by lia.
  cbn [extFrom]. rewrite get_append_r. cbn [String.get Ascii.eqb Bool.eqb].
  rewrite length_append. change (String.length ".tsv") with 4.
  replace (String.length x + 4 - (String.length x + 0)) with (String.length ".tsv")
    by (cbn [String.length]; lia).
  rewrite Nat.add_0_r. apply substring_append_r.
Qed.

(** The branch for the stable name can never run: the path it tests for
    passes the test of the branch above it. *)
Lemma stable_name_takes_first_branch :
  HasPrefix "/registry.tsv" "/registry." && HasSuffix "/registry.tsv" ".tsv" = true.
Proof. reflexivity. Qed.

(** The file server answers [r] with the bytes [content]: through the
    writer it is given, it sets headers of its own, leaving alone the three
    the wrappers set, sends the status 200, and writes the bytes. *)
Definition wrapperHeaders : list string := ["Content-Encoding"; "Cache-Control"; "Vary"].

Definition servesFile (fs : Handler) (r : Request) (content : list Z) : Prop :=
  forall W (I : ResponseWriter W) (w : W),
  exists h' : header,
    (forall k, In k wrapperHeaders -> h' !! k = wHeader w !! k)
    /\ fs W I r w = Write content (WriteHeader 200%Z (putHeader h' w)).

(** A file server for concrete runs: it knows one file. *)
Definition oneFile (path : string) (content : list Z) : Handler := fun W _ r w =>
  if String.eqb (URL_Path r) path
  then Write content (WriteHeader 200%Z
         (setHeader "Content-Type" "text/tab-separated-values; charset=utf-8" w))
  else Write [] (WriteHeader 404%Z w).

Lemma oneFile_serves path content r :
  URL_Path r = path -> servesFile (oneFile path content) r content.
Proof.
  intros Hp W I w. unfold oneFile. rewrite Hp, String.eqb_refl.
  exists (Set_ (wHeader w) "Content-Type" "text/tab-separated-values; charset=utf-8").
  split; [|reflexivity].
  intros k Hk. unfold Set_. apply lookup_insert_ne.
  unfold wrapperHeaders in Hk. simpl in Hk.
  destruct Hk as [<-|[<-|[<-|[]]]]; discriminate.
Qed.

Section Responses.

Variable NewWriterLevel : Z -> option (list Z -> list Z).
Variable fs : Handler.

(** With the gzip writer at hand and a compressible extension, the
    response is the compressed stream of what the inner handler wrote, under
    the headers the inner handler left. *)
Lemma server_gzip_response r content gz cache :
  Contains (Get (Header r) "Accept-Encoding") "gzip" = true ->
  gzipped (ToLower (Ext (URL_Path r))) = true ->
  NewWriterLevel BestCompression = Some gz ->
  (forall W (I : ResponseWriter W) (w : W),
     handler fs W I r w =
       fs W I r (setHeader "Cache-Control" cache
                  (setHeader "Access-Control-Allow-Origin" "*" w))) ->
  servesFile fs r content ->
  let resp := serve (server NewWriterLevel fs) r in
  sent resp !! "Content-Encoding" = Some ["gzip"]
  /\ sent resp !! "Cache-Control" = Some [cache]
  /\ sent resp !! "Vary" = Some ["Accept-Encoding"]
  /\ status resp = Some 200%Z
  /\ body resp = gz content.
Proof.
  intros Hacc Hext Hgz Hh Hfs resp. subst resp.
  unfold serve, server, withGzip. rewrite Hacc, Hext, Hgz. cbn [negb].
  rewrite Hh.
  match goal with |- context [fs ?W ?I r ?w] => destruct (Hfs W I w) as (h' & Hkeep & ->) end.
  cbn. unfold response_WriteHeader. cbn.
  rewrite !Hkeep by (unfold wrapperHeaders; simpl; auto).
  cbn. unfold Set_, Add. cbn.
  repeat split.
Qed.

(** Without gzip in play, the response is what the inner handler wrote. *)
Lemma server_plain_response r content cache :
  Contains (Get (Header r) "Accept-Encoding") "gzip" = false ->
  (forall W (I : ResponseWriter W) (w : W),
     handler fs W I r w =
       fs W I r (setHeader "Cache-Control" cache
                  (setHeader "Access-Control-Allow-Origin" "*" w))) ->
  servesFile fs r content ->
  let resp := serve (server NewWriterLevel fs) r in
  sent resp !! "Cache-Control" = Some [cache]
  /\ sent resp !! "Content-Encoding" = None
  /\ sent resp !! "Vary" = None
  /\ status resp = Some 200%Z
  /\ body resp = content.
Proof.
  intros Hacc Hh Hfs resp. subst resp.
  unfold serve, server, withGzip. rewrite Hacc. cbn [negb].
  rewrite Hh.
  match goal with |- context [fs ?W ?I r ?w] => destruct (Hfs W I w) as (h' & Hkeep & ->) end.
  cbn. unfold response_WriteHeader. cbn.
  rewrite !Hkeep by (unfold wrapperHeaders; simpl; auto).
  cbn. unfold Set_. cbn.
  repeat split.
Qed.

Definition IMMUTABLE : string := "public, max-age=31536000, immutable".

Lemma handler_hashed r hash :
  URL_Path r = "/registry." ++ hash ++ ".tsv" ->
  forall W (I : ResponseWriter W) (w : W),
    handler fs W I r w =
      fs W I r (setHeader "Cache-Control" IMMUTABLE
                 (setHeader "Access-Control-Allow-Origin" "*" w)).
Proof.
  intros Hp W I w. unfold handler. rewrite Hp.
  rewrite HasPrefix_append.
  rewrite <- append_assoc, HasSuffix_append. reflexivity.
Qed.

Lemma handler_stable r :
  URL_Path r = "/registry.tsv" ->
  forall W (I : ResponseWriter W) (w : W),
    handler fs W I r w =
      fs W I r (setHeader "Cache-Control" IMMUTABLE
                 (setHeader "Access-Control-Allow-Origin" "*" w)).
Proof. intros Hp W I w. unfold handler. rewrite Hp. reflexivity. Qed.

(** C3. For every request whose path is [/registry.<hash>.tsv] (the hash
    segment empty or not) and whose Accept-Encoding value mentions gzip,
    with a gzip library whose best-compression writer exists and whose
    streams decompress to what was written, and a file server that answers
    the request with a file: the response carries [Content-Encoding: gzip],
    [Cache-Control: public, max-age=31536000, immutable] and
    [Vary: Accept-Encoding], and its body decompresses to exactly the bytes
    of the file. *)
Theorem hashed_registry_served_gzipped
    (gunzip : list Z -> option (list Z)) (gz : list Z -> list Z)
    (r : Request) (hash : string) (content : list Z) :
  URL_Path r = "/registry." ++ hash ++ ".tsv" ->
  Contains (Get (Header r) "Accept-Encoding") "gzip" = true ->
  NewWriterLevel BestCompression = Some gz ->
  (forall b, gunzip (gz b) = Some b) ->
  servesFile fs r content ->
  let resp := serve (server NewWriterLevel fs) r in
  sent resp !! "Content-Encoding" = Some ["gzip"]
  /\ sent resp !! "Cache-Control" = Some ["public, max-age=31536000, immutable"]
  /\ sent resp !! "Vary" = Some ["Accept-Encoding"]
  /\ gunzip (body resp) = Some content.
Proof.
  intros Hp Hacc Hgz Hround Hfs resp.
  assert (Hext : gzipped (ToLower (Ext (URL_Path r))) = true).
  { rewrite Hp, <- append_assoc, Ext_tsv. reflexivity. }
  destruct (server_gzip_response r content gz IMMUTABLE Hacc Hext Hgz
              (handler_hashed r hash Hp) Hfs) as (H1 & H2 & H3 & _ & H5).
  fold resp in H1, H2, H3, H5.
  repeat split; [exact H1 | exact H2 | exact H3 |].
  rewrite H5. apply Hround.
Qed.

(** C1, on the code. For every request whose path is exactly
    [/registry.tsv] and that has no Accept-Encoding header, answered by the
    file server with a file: the body is the file, uncompressed, no
    Content-Encoding header is sent, and the Cache-Control header sent is
    the one-year immutable directive of the branch for hash-named files,
    which this path satisfies first, not [public, max-age=60]. *)
Theorem stable_registry_cache_control (r : Request) (content : list Z) :
  URL_Path r = "/registry.tsv" ->
  Header r !! "Accept-Encoding" = None ->
  servesFile fs r content ->
  let resp := serve (server NewWriterLevel fs) r in
  sent resp !! "Cache-Control" = Some ["public, max-age=31536000, immutable"]
  /\ sent resp !! "Cache-Control" <> Some ["public, max-age=60"]
  /\ sent resp !! "Content-Encoding" = None
  /\ body resp = content.
Proof.
  intros Hp Hno Hfs resp.
  assert (Hacc : Contains (Get (Header r) "Accept-Encoding") "gzip" = false).
  { unfold Get. rewrite Hno. reflexivity. }
  destruct (server_plain_response r content IMMUTABLE Hacc (handler_stable r Hp) Hfs)
    as (H1 & H2 & _ & _ & H5).
  fold resp in H1, H2, H5.
  repeat split; [exact H1 | rewrite H1; discriminate | exact H2 | exact H5].
Qed.

(** C9. For every request whose Accept-Encoding value mentions gzip and
    whose path has one of the four extensions: when the construction of the
    gzip writer returns an error, the inner handler runs on the writer
    itself, after the two headers were set; so with a file server that
    answers with a file, the body is the file, uncompressed, and
    [Content-Encoding: gzip] and [Vary: Accept-Encoding] are sent all the
    same. *)
Theorem gzip_error_serves_plain_with_headers (r : Request) (content : list Z) :
  Contains (Get (Header r) "Accept-Encoding") "gzip" = true ->
  gzipped (ToLower (Ext (URL_Path r))) = true ->
  NewWriterLevel BestCompression = None ->
  servesFile fs r content ->
  (forall (next : Handler) W (I : ResponseWriter W) (w : W),
     withGzip NewWriterLevel next W I r w =
       next W I r (addHeader "Vary" "Accept-Encoding"
                    (setHeader "Content-Encoding" "gzip" w)))
  /\ let resp := serve (server NewWriterLevel fs) r in
     body resp = content
     /\ sent resp !! "Content-Encoding" = Some ["gzip"]
     /\ sent resp !! "Vary" = Some ["Accept-Encoding"].
Proof.
  intros Hacc Hext Hgz Hfs.
  assert (Hw : forall (next : Handler) W (I : ResponseWriter W) (w : W),
     withGzip NewWriterLevel next W I r w =
       next W I r (addHeader "Vary" "Accept-Encoding"
                    (setHeader "Content-Encoding" "gzip" w))).
  { intros next W I w. unfold withGzip. rewrite Hacc, Hext, Hgz. reflexivity. }
  split; [exact Hw|].
  intros resp. subst resp. unfold serve, server. rewrite Hw. unfold handler. cbv zeta.
  destruct (HasPrefix (URL_Path r) "/registry." && HasSuffix (URL_Path r) ".tsv");
    [|destruct (String.eqb (URL_Path r) "/registry.tsv")];
    (match goal with |- context [fs ?W ?I r ?w] =>
       destruct (Hfs W I w) as (h' & Hkeep & ->) end;
     cbn; unfold response_WriteHeader; cbn;
     rewrite !Hkeep by (unfold wrapperHeaders; simpl; auto);
     cbn; unfold Set_, Add; cbn; repeat split).
Qed.

End Responses.

End ServerFacts.

(** ** Concrete runs *)

Example sha256_abc :
  sha256hex (Buffer.from_utf8 (js "abc"))
  = js "ba7816bf8f01cfea414140de5dae2223b00361a396177a9cb410ff61f20015ad".
Proof. vm_compute. reflexivity. Qed.

Example sha256_empty :
  sha256hex [] = js "e3b0c44298fc1c149afbf4c8996fb92427ae41e4649b934ca495991b7852b855".
Proof. vm_compute. reflexivity. Qed.

Example sha256_two_blocks :
  sha256hex (Buffer.from_utf8 (js "abcdbcdecdefdefgefghfghighijhijkijkljklmklmnlmnomnopnopq"))
  = js "248d6a61d20638b8e5c026930c3e6039a33ce45964ff2167f6ecedd419db06c1".
Proof. vm_compute. reflexivity. Qed.

Example utf8_roundtrip_surrogates :
  Buffer.from_utf8 [0x48; 0xE9; 0x20AC; 0xD83D; 0xDE00; 0xDC00]
    = [0x48; 0xC3; 0xA9; 0xE2; 0x82; 0xAC; 0xF0; 0x9F; 0x98; 0x80; 0xEF; 0xBF; 0xBD]
  /\ Buffer.toString_utf8 [0x48; 0xC3; 0xA9; 0xE2; 0x82; 0xAC; 0xF0; 0x9F; 0x98; 0x80; 0xFF]
    = [0x48; 0xE9; 0x20AC; 0xD83D; 0xDE00; 0xFFFD].
Proof. split; vm_compute; reflexivity. Qed.

(** A registry with two good entries. *)
Definition demo_md : jsstring :=
  js "# Demos" ++ [10]
  ++ js "| slug | title | url | tags |" ++ [13; 10]
  ++ js "|---|---|---|---|" ++ [10]
  ++ js "| a | Alpha | https://a.example | x, ,y,,z |" ++ [10]
  ++ js "| b | Beta | http://b.example | |" ++ [10]
  ++ js "done".

Definition demo_rows : list Row :=
  [mkEntry "a" "Alpha" "https://a.example" "x, ,y,,z";
   mkEntry "b" "Beta" "http://b.example" ""].

Definition demo_world : World :=
  {| files := {[ INPUT_MD := File (Buffer.from_utf8 demo_md) ]}; stdout := [] |}.

Example demo_parse :
  parseMarkdownTable demo_md
  = inr ([js "slug"; js "title"; js "url"; js "tags"], demo_rows).
Proof. vm_compute. reflexivity. Qed.

Example demo_body :
  buildTSVBody demo_rows
  = js "slug" ++ [9] ++ js "title" ++ [9] ++ js "url" ++ [9] ++ js "tags" ++ [10]
    ++ js "a" ++ [9] ++ js "Alpha" ++ [9] ++ js "https://a.example" ++ [9] ++ js "x,y,z" ++ [10]
    ++ js "b" ++ [9] ++ js "Beta" ++ [9] ++ js "http://b.example" ++ [9] ++ [10]
  /\ versionOf (buildTSVBody demo_rows) = js "5b90b09b4b87d641".
Proof. split; vm_compute; reflexivity. Qed.

(** The same registry with the slug of the second row repeated in the
    fourth, and one with a url that is not http(s). *)
Definition repeated_rows : list Row :=
  [mkEntry "x" "Ex" "https://x.example" "";
   mkEntry "a" "Alpha" "https://a.example" "";
   mkEntry "y" "Why" "https://y.example" "";
   mkEntry " a " "Again" "https://again.example" ""].

Definition ftp_md : jsstring :=
  js "| slug | title | url | tags |" ++ [10]
  ++ js "|---|---|---|---|" ++ [10]
  ++ js "| a | Alpha | https://a.example | x |" ++ [10]
  ++ js "| f | Files | ftp://example.com | y |" ++ [10].

Definition ftp_world : World :=
  {| files := {[ INPUT_MD := File (Buffer.from_utf8 ftp_md) ]}; stdout := [js "earlier"] |}.

Example duplicate_line_text :
  duplicateMsg (js "a") (1 + 1) (3 + 1)
  = js "Duplicate slug " ++ [34] ++ js "a" ++ [34] ++ js " at rows 2 and 4".
Proof. vm_compute. reflexivity. Qed.

Example ftp_report :
  collectErrors schemeOnly
    [mkEntry "a" "Alpha" "https://a.example" "x"; mkEntry "f" "Files" "ftp://example.com" "y"]
  = [js "Row 2: url is not http(s): " ++ [34] ++ js "ftp://example.com" ++ [34]].
Proof. vm_compute. reflexivity. Qed.

(** *** The theorems at these inputs *)

Ltac compute_Forall :=
  repeat first [ constructor | intro; discriminate | progress vm_compute ].

Lemma serialize_reparse_roundtrip_witness :
  Forall plainRow demo_rows
  /\ last (split (buildTSVBody demo_rows) 10) = Some []
  /\ reparse (buildTSVBody demo_rows) = map emitted demo_rows.
Proof.
  assert (H : Forall plainRow demo_rows) by compute_Forall.
  split; [exact H | exact (serialize_reparse_roundtrip demo_rows H)].
Defined.

Lemma no_table_iff_no_pipe_pair_witness :
  findStart (splitLines demo_md) 0 = Some 1%nat.
Proof.
  refine (proj1 (proj2 (no_table_iff_no_pipe_pair demo_md) 1%nat _ _)).
  - apply tableAt_tableAtb. vm_compute. reflexivity.
  - intros [|j] Hj; [|lia].
    rewrite tableAt_tableAtb. vm_compute. discriminate.
Defined.

Lemma duplicate_slugs_reported_witness :
  In (duplicateMsg (js "a") 2 4) (collectErrors schemeOnly repeated_rows)
  /\ validateRows schemeOnly repeated_rows
     = inl (Error (validationMessage (collectErrors schemeOnly repeated_rows)))
  /\ includes (validationMessage (collectErrors schemeOnly repeated_rows))
       (js "- " ++ duplicateMsg (js "a") 2 4) = true.
Proof.
  refine (duplicate_slugs_reported schemeOnly repeated_rows (js "a") 1 3 _ _ _ _ _).
  - vm_compute. discriminate.
  - lia.
  - vm_compute. reflexivity.
  - vm_compute. reflexivity.
  - intros [|k] Hk; [|lia]. vm_compute. discriminate.
Defined.

Lemma artifact_written_twice_witness :
  exists w',
    main schemeOnly demo_world = (inr tt, w')
    /\ files w' !! path_join OUT_DIR (js "registry.tsv")
       = files w' !! path_join OUT_DIR (js "registry.5b90b09b4b87d641.tsv")
    /\ stdout w' = [js "Built 2 entries"; js "version: 5b90b09b4b87d641";
                    js "dist/registry.tsv"; js "dist/registry.5b90b09b4b87d641.tsv"].
Proof.
  assert (Hdir : forall d, files demo_world !! OUT_DIR <> Some (File d))
    by (intros d; vm_compute; discriminate).
  assert (Hin : files demo_world !! INPUT_MD = Some (File (Buffer.from_utf8 demo_md)))
    by (vm_compute; reflexivity).
  assert (Hparse : parseMarkdownTable (Buffer.toString_utf8 (Buffer.from_utf8 demo_md))
                   = inr ([js "slug"; js "title"; js "url"; js "tags"], demo_rows))
    by (vm_compute; reflexivity).
  assert (Hv : validateRows schemeOnly demo_rows = inr tt) by (vm_compute; reflexivity).
  destruct (artifact_written_twice schemeOnly demo_world _ _ _ Hdir Hin Hparse Hv)
    as (w' & Hmain & _); [vm_compute; discriminate | vm_compute; discriminate |].
  exists w'. split; [exact Hmain|].
  assert (Hrun : (main schemeOnly demo_world).2 = w') by (rewrite Hmain; reflexivity).
  rewrite <- Hrun. split; vm_compute; reflexivity.
Defined.

Lemma invalid_rows_write_nothing_witness :
  exists w',
    main schemeOnly ftp_world
      = (inl (Error (js "Registry validation failed:" ++ [10]
                     ++ js "- Row 2: url is not http(s): " ++ [34]
                     ++ js "ftp://example.com" ++ [34])), w')
    /\ (forall p, p <> OUT_DIR -> files w' !! p = files ftp_world !! p)
    /\ stdout w' = [js "earlier"].
Proof.
  assert (Hin : files ftp_world !! INPUT_MD = Some (File (Buffer.from_utf8 ftp_md)))
    by (vm_compute; reflexivity).
  assert (Hparse : parseMarkdownTable (Buffer.toString_utf8 (Buffer.from_utf8 ftp_md))
                   = inr ([js "slug"; js "title"; js "url"; js "tags"],
                          [mkEntry "a" "Alpha" "https://a.example" "x";
                           mkEntry "f" "Files" "ftp://example.com" "y"]))
    by (vm_compute; reflexivity).
  destruct (invalid_rows_write_nothing schemeOnly ftp_world _ _ _ Hin Hparse)
    as (e & w' & Hmain & Hfiles & Hout & He); [vm_compute; discriminate|].
  assert (Hmsg : validationMessage (collectErrors schemeOnly
                    [mkEntry "a" "Alpha" "https://a.example" "x";
                     mkEntry "f" "Files" "ftp://example.com" "y"])
                 = js "Registry validation failed:" ++ [10]
                   ++ js "- Row 2: url is not http(s): " ++ [34]
                   ++ js "ftp://example.com" ++ [34])
    by (vm_compute; reflexivity).
  exists w'. rewrite Hmain, He, Hmsg by (intros d; vm_compute; discriminate).
  split; [reflexivity|]. split; [exact Hfiles | exact Hout].
Defined.

Lemma dist_created_before_reading_witness :
  let w := {| files := ∅; stdout := [] |} in
  main schemeOnly w
    = (inl (SystemError "ENOENT" INPUT_MD), {| files := {[ OUT_DIR := Dir ]}; stdout := [] |})
  /\ files (main schemeOnly ftp_world).2 !! OUT_DIR = Some Dir.
Proof.
  split.
  - refine (proj1 (proj2 (dist_created_before_reading schemeOnly _ _)) _).
    + intros d. vm_compute. discriminate.
    + vm_compute. reflexivity.
  - refine (proj1 (dist_created_before_reading schemeOnly ftp_world _)).
    intros d. vm_compute. discriminate.
Defined.

(** A request for the hash-named artifact by a client that takes gzip, one
    for the stable name by a client that sends no Accept-Encoding, a gzip
    library reduced to its framing, and one without a writer. *)
Definition hashed_request : Server.Request :=
  {| Server.Method := "GET";
     Server.URL_Path := "/registry.abcdef0123456789.tsv";
     Server.Header := {[ "Accept-Encoding" := ["gzip, deflate, br"] ]} |}.

Definition stable_request : Server.Request :=
  {| Server.Method := "GET"; Server.URL_Path := "/registry.tsv"; Server.Header := ∅ |}.

Definition framing (b : list Z) : list Z := [0x1f; 0x8b] ++ b.
Definition unframe (b : list Z) : option (list Z) :=
  match b with
  | 0x1f :: 0x8b :: b' => Some b'
  | _ => None
  end.
Definition framingOnly (level : Z) : option (list Z -> list Z) :=
  if (-2 <=? level) && (level <=? 9) then Some framing else None.
Definition noWriter (level : Z) : option (list Z -> list Z) := None.

Definition artifact : list Z := Buffer.from_utf8 (js "#v=abcdef0123456789" ++ [10]).

Lemma hashed_registry_served_gzipped_witness :
  let resp := Server.serve
                (Server.server framingOnly
                   (ServerFacts.oneFile "/registry.abcdef0123456789.tsv" artifact))
                hashed_request in
  Server.sent resp !! "Content-Encoding" = Some ["gzip"]
  /\ Server.sent resp !! "Cache-Control" = Some ["public, max-age=31536000, immutable"]
  /\ Server.sent resp !! "Vary" = Some ["Accept-Encoding"]
  /\ unframe (Server.body resp) = Some artifact.
Proof.
  refine (ServerFacts.hashed_registry_served_gzipped framingOnly _ unframe framing
            hashed_request "abcdef0123456789" artifact _ _ _ _ _).
  - reflexivity.
  - vm_compute. reflexivity.
  - reflexivity.
  - intros b. reflexivity.
  - apply ServerFacts.oneFile_serves. reflexivity.
Defined.

Lemma stable_registry_cache_control_witness :
  let resp := Server.serve
                (Server.server framingOnly (ServerFacts.oneFile "/registry.tsv" artifact))
                stable_request in
  Server.sent resp !! "Cache-Control" = Some ["public, max-age=31536000, immutable"]
  /\ Server.sent resp !! "Cache-Control" <> Some ["public, max-age=60"]
  /\ Server.sent resp !! "Content-Encoding" = None
  /\ Server.body resp = artifact.
Proof.
  refine (ServerFacts.stable_registry_cache_control framingOnly _ stable_request artifact _ _ _).
  - reflexivity.
  - vm_compute. reflexivity.
  - apply ServerFacts.oneFile_serves. reflexivity.
Defined.

Lemma gzip_error_serves_plain_with_headers_witness :
  let resp := Server.serve
                (Server.server noWriter
                   (ServerFacts.oneFile "/registry.abcdef0123456789.tsv" artifact))
                hashed_request in
  Server.body resp = artifact
  /\ Server.sent resp !! "Content-Encoding" = Some ["gzip"]
  /\ Server.sent resp !! "Vary" = Some ["Accept-Encoding"].
Proof.
  refine (proj2 (ServerFacts.gzip_error_serves_plain_with_headers noWriter _
                   hashed_request artifact _ _ _ _)).
  - vm_compute. reflexivity.
  - vm_compute. reflexivity.
  - reflexivity.
  - apply ServerFacts.oneFile_serves. reflexivity.
Defined.

(** * Further properties *)

(** ** Trimming *)

Section TrimFacts.

Implicit Types (s a b core : jsstring).

Definition blank s : Prop := Forall (fun c => isWhiteSpace c = true) s.

(** The first unit, if there is one, is not white space. *)
Definition cleanStart s : Prop :=
  match s with
  | c :: _ => isWhiteSpace c = false
  | [] => True
  end.

Definition cleanEnd s : Prop := cleanStart (rev s).

Lemma trimStart_blank a s : blank a -> trimStart (a ++ s) = trimStart s.
Proof.
  induction 1 as [|c a Hc _ IH]; [reflexivity|].
  cbn [app trimStart]. rewrite Hc. exact IH.
Qed.

Lemma trimStart_clean s : cleanStart s -> trimStart s = s.
Proof. destruct s as [|c s]; [reflexivity|]. cbn. intros ->. reflexivity. Qed.

Lemma trimStart_cleanStart s : cleanStart (trimStart s).
Proof.
  induction s as [|c s IH]; [exact I|].
  cbn [trimStart]. destruct (isWhiteSpace c) eqn:E; [exact IH | exact E].
Qed.

Lemma trimStart_split s : exists a, blank a /\ s = a ++ trimStart s.
Proof.
  induction s as [|c s (a & Ha & IH)]; [exists []; split; [constructor | reflexivity]|].
  cbn [trimStart]. destruct (isWhiteSpace c) eqn:E.
  - exists (c :: a). split; [constructor; assumption|]. cbn [app]. f_equal. exact IH.
  - exists []. split; [constructor | reflexivity].
Qed.

Lemma blank_rev b : blank b -> blank (rev b).
Proof. apply Forall_rev. Qed.

(** What [trim] returns, from a decomposition of its argument. *)
Lemma trim_core a core b :
  blank a -> blank b -> cleanStart core -> cleanEnd core -> trim (a ++ core ++ b) = core.
Proof.
  intros Ha Hb Hs He. unfold trim, trimEnd. rewrite (trimStart_blank a _ Ha).
  destruct core as [|c core].
  - cbn [app]. rewrite <- (app_nil_r b), (trimStart_blank b [] Hb). reflexivity.
  - rewrite (trimStart_clean ((c :: core) ++ b)) by exact Hs.
    rewrite rev_app_distr, (trimStart_blank (rev b) _ (blank_rev b Hb)).
    rewrite (trimStart_clean _ He). apply rev_involutive.
Qed.

(** Every string is blanks, its trimmed form, and blanks; the trimmed form
    neither starts nor ends with white space. *)
Lemma trim_decompose s :
  exists a b, blank a /\ blank b /\ s = a ++ trim s ++ b
              /\ cleanStart (trim s) /\ cleanEnd (trim s).
Proof.
  destruct (trimStart_split s) as (a & Ha & Hs).
  destruct (trimStart_split (rev (trimStart s))) as (b & Hb & Hr).
  assert (Ht : trimStart s = trim s ++ rev b).
  { unfold trim, trimEnd. rewrite <- rev_app_distr, <- Hr. symmetry. apply rev_involutive. }
  exists a, (rev b). repeat split.
  - exact Ha.
  - apply blank_rev, Hb.
  - rewrite <- Ht. exact Hs.
  - pose proof (trimStart_cleanStart s) as Hc. rewrite Ht in Hc.
    destruct (trim s); [exact I | exact Hc].
  - unfold cleanEnd, trim, trimEnd. rewrite rev_involutive. apply trimStart_cleanStart.
Qed.

Lemma trim_idempotent s : trim (trim s) = trim s.
Proof.
  destruct (trim_decompose s) as (a & b & _ & _ & _ & Hs & He).
  rewrite <- (app_nil_r (trim s)) at 1.
  apply (trim_core [] (trim s) []); [constructor | constructor | exact Hs | exact He].
Qed.

Lemma trim_fixed s : trim s = s <-> cleanStart s /\ cleanEnd s.
Proof.
  split.
  - intros H. destruct (trim_decompose s) as (_ & _ & _ & _ & _ & Hs & He).
    rewrite H in Hs, He. auto.
  - intros [Hs He]. rewrite <- (app_nil_r s) at 1.
    apply (trim_core [] s []); [constructor | constructor | exact Hs | exact He].
Qed.

(** A trimmed string between blanks trims back to itself. *)
Lemma trim_padded a s b : blank a -> blank b -> trim s = s -> trim (a ++ s ++ b) = s.
Proof.
  intros Ha Hb Hs. apply trim_fixed in Hs as [H1 H2]. apply trim_core; assumption.
Qed.

Lemma trim_blank a : blank a -> trim a = [].
Proof.
  intros Ha. rewrite <- (app_nil_r a). apply (trim_core a [] []); [exact Ha | constructor | exact I | exact I].
Qed.

End TrimFacts.

(** ** The sanitizer, the digest text and the body *)

Section SerializerMore.

Implicit Types (s raw : jsstring) (rows : list Row).

(** What the sanitizer does to one unit. *)
Definition sanitized (c : Z) : Z :=
  if (c =? 9) || (c =? 13) || (c =? 10) then 32 else c.

Lemma tsvEscape_map s : tsvEscape s = map sanitized s.
Proof.
  unfold tsvEscape, replaceAll. rewrite !map_map. apply map_ext. intros c.
  unfold sanitized.
  destruct (Z.eqb_spec c 9) as [->|H9]; [reflexivity|].
  destruct (Z.eqb_spec c 13) as [->|H13]; [reflexivity|].
  destruct (Z.eqb_spec c 10) as [->|H10]; reflexivity.
Qed.

(** X1. The sanitizer keeps the length of a string and every unit other
    than a tab, a carriage return or a line feed, puts a space in the place
    of each of those three, leaves none of them behind, and changes nothing
    when applied again. *)
Theorem tsvEscape_sanitizes s :
  length (tsvEscape s) = length s
  /\ (forall i c, s !! i = Some c ->
        tsvEscape s !! i = Some (if decide (plain c) then c else 32))
  /\ Forall plain (tsvEscape s)
  /\ tsvEscape (tsvEscape s) = tsvEscape s.
Proof.
  repeat split.
  - rewrite tsvEscape_map. apply length_map.
  - intros i c Hi. rewrite tsvEscape_map.
    change (map sanitized s) with (sanitized <$> s).
    rewrite list_lookup_fmap, Hi. cbn. f_equal. unfold sanitized, plain.
    destruct (decide _) as [(H9 & H13 & H10)|Hn].
    + apply Z.eqb_neq in H9, H13, H10. rewrite H9, H13, H10. reflexivity.
    + destruct (Z.eqb_spec c 9), (Z.eqb_spec c 13), (Z.eqb_spec c 10);
        try reflexivity. exfalso. apply Hn. auto.
  - apply tsvEscape_plain.
  - apply tsvEscape_id, tsvEscape_plain.
Qed.

(** X2. The hexadecimal digest of any buffer is 64 characters long, each a
    digit or a letter from a to f in lower case. *)
Theorem sha256hex_shape (buf : list Z) :
  length (sha256hex buf) = 64%nat /\ Forall lowerHex (sha256hex buf).
Proof.
  unfold sha256hex. split.
  - rewrite hex_length, digest_length. reflexivity.
  - apply hex_lowerHex, digest_bytes.
Qed.

(** X3. Whatever the cells of the rows hold, the body is well-formed TSV:
    its lines are the column-header line and one line per row, in order,
    the text ends with a line feed, and every row line splits on tabs into
    exactly four fields, none of which holds a tab, a carriage return or a
    line feed. *)
Theorem body_is_wellformed_tsv rows :
  textLines (buildTSVBody rows) = headerLine :: map rowLine rows
  /\ length (textLines (buildTSVBody rows)) = S (length rows)
  /\ last (buildTSVBody rows) = Some 10
  /\ Forall (fun r => length (split (rowLine r) 9) = 4%nat
                      /\ Forall (Forall plain) (split (rowLine r) 9)) rows.
Proof.
  assert (Hl : textLines (buildTSVBody rows) = headerLine :: map rowLine rows).
  { unfold textLines. rewrite buildTSVBody_split, app_comm_cons. apply removelast_last. }
  repeat split.
  - exact Hl.
  - rewrite Hl. cbn [length]. rewrite length_map. reflexivity.
  - unfold buildTSVBody, LF. apply last_snoc.
  - apply Forall_forall. intros r _. rewrite rowLine_split. split; [reflexivity|].
    unfold rowFields. repeat constructor; apply tsvEscape_plain.
Qed.

Lemma split_pieces_free s (sep : Z) : Forall (Forall (fun c => c <> sep)) (split s sep).
Proof.
  induction s as [|c s IH]; cbn [split]; [repeat constructor|].
  destruct (Z.eqb_spec c sep) as [->|Hc].
  - constructor; [constructor | exact IH].
  - destruct (split s sep) as [|q qs]; [repeat constructor; exact Hc|].
    inversion IH; subst. constructor; [constructor|]; assumption.
Qed.

(** The tags of a raw cell: the trimmed, non-empty pieces between commas. *)
Definition tagTokens raw : list jsstring :=
  filter (fun t => t <> []) (map trim (split raw 44)).

Lemma tagTokens_shape raw :
  Forall (fun t => t <> [] /\ trim t = t /\ Forall (fun c => c <> 44) t) (tagTokens raw).
Proof.
  apply Forall_forall. intros t Ht. unfold tagTokens in Ht.
  apply list_elem_of_filter in Ht as [Hne Ht].
  apply list_elem_of_In, in_map_iff in Ht as (u & <- & Hu).
  repeat split; [exact Hne | apply trim_idempotent |].
  apply Forall_trim.
  pose proof (split_pieces_free raw 44) as Hs.
  rewrite Forall_forall in Hs. apply Hs, list_elem_of_In, Hu.
Qed.

Lemma tagTokens_join (l : list jsstring) :
  Forall (fun t => t <> [] /\ trim t = t /\ Forall (fun c => c <> 44) t) l ->
  tagTokens (join l [44]) = l.
Proof.
  intros Hl. unfold tagTokens. destruct l as [|t l].
  - reflexivity.
  - rewrite split_join; [|discriminate|].
    + induction Hl as [|u l' (Hne & Htr & _) _ IH]; [reflexivity|].
      cbn [map]. rewrite filter_cons_True by (rewrite Htr; exact Hne).
      rewrite Htr, IH. reflexivity.
    + eapply Forall_impl; [exact Hl|]. cbn. intros u (_ & _ & Hu). exact Hu.
Qed.

(** X4. The normalized tags are the trimmed, non-empty pieces of the raw
    cell joined by commas, in their order and with repeats kept: splitting
    the normalized text on commas gives exactly those pieces back (and the
    empty text when there are none), and normalizing a second time changes
    nothing. *)
Theorem normalizeTags_canonical raw :
  normalizeTags raw = join (tagTokens raw) (js ",")
  /\ tagTokens (normalizeTags raw) = tagTokens raw
  /\ (tagTokens raw <> [] -> split (normalizeTags raw) 44 = tagTokens raw)
  /\ (tagTokens raw = [] -> normalizeTags raw = [])
  /\ normalizeTags (normalizeTags raw) = normalizeTags raw.
Proof.
  assert (H0 : normalizeTags raw = join (tagTokens raw) [44]) by apply normalizeTags_spec.
  assert (H1 : tagTokens (normalizeTags raw) = tagTokens raw).
  { rewrite H0. apply tagTokens_join, tagTokens_shape. }
  repeat split.
  - exact H0.
  - exact H1.
  - intros Hne. rewrite H0. apply split_join; [exact Hne|].
    eapply Forall_impl; [apply tagTokens_shape|]. cbn. intros u (_ & _ & Hu). exact Hu.
  - intros He. rewrite H0, He. reflexivity.
  - transitivity (join (tagTokens (normalizeTags raw)) [44]);
      [apply normalizeTags_spec | rewrite H1; symmetry; exact H0].
Qed.

End SerializerMore.

(** ** The validator: what it reports and what it accepts *)

Section ValidatorMore.

Variable URL_protocol : jsstring -> option jsstring.

Implicit Types (rows : list Row) (r : Row) (e : jsstring).

Lemma checkRows_In rows : forall i0 j r e,
  rows !! j = Some r -> In e (rowErrors URL_protocol (i0 + j) r) ->
  In e (checkRows URL_protocol rows i0).
Proof.
  induction rows as [|r0 rest IH]; intros i0 j r e Hj He.
  - rewrite lookup_nil in Hj. discriminate.
  - cbn [checkRows]. apply in_or_app. destruct j as [|j].
    + left. injection Hj as ->. rewrite Nat.add_0_r in He. exact He.
    + right. apply (IH (S i0) j r e Hj).
      replace (S i0 + j)%nat with (i0 + S j)%nat by lia. exact He.
Qed.

Lemma when_In (b : bool) e : b = true -> In e (when b e).
Proof. intros ->. left. reflexivity. Qed.

(** X5. Nothing is short-circuited: every message that the checks of one
    row produce is in the report, whatever the other rows hold, and
    validation then fails with a message that has it as a line. In
    particular a row whose trimmed url is not empty and is not an http(s)
    URL (an ftp URL, or text that is no URL at all) is reported under its
    1-based index with the url quoted. *)
Theorem every_violation_reported rows (j : nat) r :
  rows !! j = Some r ->
  (forall e, In e (rowErrors URL_protocol j r) ->
     In e (collectErrors URL_protocol rows)
     /\ validateRows URL_protocol rows
        = inl (Error (validationMessage (collectErrors URL_protocol rows)))
     /\ includes (validationMessage (collectErrors URL_protocol rows)) (js "- " ++ e) = true)
  /\ (let url := trim (getProp r (js "url")) in
      url <> [] -> isHttpUrl URL_protocol url = false ->
      In (js "Row " ++ ofNat (j + 1) ++ js ": url is not http(s): " ++ [34] ++ url ++ [34])
         (rowErrors URL_protocol j r)).
Proof.
  intros Hj. split.
  - intros e He.
    assert (Hin : In e (collectErrors URL_protocol rows)).
    { unfold collectErrors. apply in_or_app. left.
      apply (checkRows_In rows 0 j r e Hj). exact He. }
    split; [exact Hin | apply validateRows_fails, Hin].
  - intros url Hne Hbad. unfold rowErrors. fold url.
    do 5 (apply in_or_app; right).
    replace (js "Row " ++ ofNat (j + 1) ++ js ": url is not http(s): " ++ [34] ++ url ++ [34])
      with (rowTag j ++ js "url is not http(s): " ++ quoted url)
      by (unfold rowTag, quoted; rewrite <- !app_assoc; reflexivity).
    apply when_In. rewrite Hbad. destruct url; [congruence | reflexivity].
Qed.

(** The data-model invariant of one row: the four columns are there, the
    trimmed slug is not empty and has no white space, the trimmed title is
    not empty, and the trimmed url is not empty and is an http(s) URL. *)
Definition validRow r : Prop :=
  Forall (fun k => is_Some (r !! k)) required
  /\ slugOf r <> [] /\ hasWhiteSpace (slugOf r) = false
  /\ trim (getProp r (js "title")) <> []
  /\ trim (getProp r (js "url")) <> []
  /\ isHttpUrl URL_protocol (trim (getProp r (js "url"))) = true.

Lemma when_nil (b : bool) e : when b e = [] <-> b = false.
Proof. destruct b; cbn; split; congruence. Qed.

Lemma truthy_false (s : jsstring) : negb (truthy s) = false <-> s <> [].
Proof. destruct s; cbn; split; congruence. Qed.

Lemma missing_nil r :
  flat_map (fun k => when (negb (hasProp k r))
                          (rowTag 0 ++ js "missing column " ++ quoted k)) required = []
  <-> Forall (fun k => is_Some (r !! k)) required.
Proof.
  generalize (rowTag 0). intros tag. unfold hasProp.
  induction required as [|k ks IH]; cbn [flat_map].
  - split; [constructor | reflexivity].
  - split.
    + intros H. apply app_eq_nil in H as [Hk Hks]. apply when_nil in Hk.
      apply negb_false_iff, bool_decide_eq_true in Hk.
      constructor; [exact Hk | apply IH, Hks].
    + intros H. inversion H as [|? ? Hk Hks]; subst.
      apply IH in Hks. rewrite Hks, app_nil_r. apply when_nil.
      apply negb_false_iff, bool_decide_eq_true. exact Hk.
Qed.

Lemma missing_nil_any r i :
  flat_map (fun k => when (negb (hasProp k r))
                          (rowTag i ++ js "missing column " ++ quoted k)) required = []
  <-> Forall (fun k => is_Some (r !! k)) required.
Proof.
  rewrite <- (missing_nil r). unfold required. cbn [flat_map].
  destruct (negb (hasProp (js "slug") r)), (negb (hasProp (js "title") r)),
    (negb (hasProp (js "url") r)), (negb (hasProp (js "tags") r));
    cbn [when app]; split; intros H; first [reflexivity | discriminate H].
Qed.

Lemma rowErrors_nil i r : rowErrors URL_protocol i r = [] <-> validRow r.
Proof.
  unfold rowErrors, validRow. fold (slugOf r).
  rewrite !app_nil, missing_nil_any, !when_nil, !truthy_false.
  split.
  - intros (H1 & H2 & H3 & H4 & H5 & H6). repeat split; try assumption.
    apply andb_false_iff in H6 as [H6|H6].
    + destruct (trim (getProp r (js "url"))); [congruence | discriminate].
    + apply negb_false_iff. exact H6.
  - intros (H1 & H2 & H3 & H4 & H5 & H6). repeat split; try assumption.
    rewrite H6. apply andb_false_r.
Qed.

Lemma checkRows_nil rows : forall i, checkRows URL_protocol rows i = [] <-> Forall validRow rows.
Proof.
  induction rows as [|r rest IH]; intros i; cbn [checkRows].
  - split; [constructor | reflexivity].
  - rewrite app_nil, rowErrors_nil, IH. split.
    + intros [H1 H2]. constructor; assumption.
    + intros H. inversion H; subst. auto.
Qed.

(** The second loop reports nothing exactly when the slugs that are not
    empty are pairwise different and none of them is in [seen] already. *)
Lemma checkDuplicates_nil rows : forall i (seen : gmap (list Z) nat),
  Forall (fun r => slugOf r <> []) rows ->
  (checkDuplicates rows i seen = []
   <-> NoDup (map slugOf rows) /\ Forall (fun r => seen !! slugOf r = None) rows).
Proof.
  induction rows as [|r rest IH]; intros i seen Hne; cbn [checkDuplicates map].
  - split; [intros _; split; constructor | reflexivity].
  - inversion Hne as [|? ? Hr Hrest]; subst. fold (slugOf r).
    rewrite (truthy_nonempty _ Hr).
    destruct (seen !! slugOf r) as [first|] eqn:E.
    + split; [discriminate|]. intros [_ H]. inversion H; subst. congruence.
    + rewrite (IH (S i) _ Hrest). split.
      * intros [Hnd Hseen]. split.
        -- constructor; [|exact Hnd]. intros Hin.
           apply list_elem_of_In, in_map_iff in Hin as (r' & Hs & Hr').
           rewrite Forall_forall in Hseen. specialize (Hseen r' (proj2 (list_elem_of_In _ _) Hr')).
           rewrite <- Hs, lookup_insert_eq in Hseen. discriminate.
        -- constructor; [exact E|]. eapply Forall_impl; [exact Hseen|]. cbn. intros r' Hr'.
           destruct (decide (slugOf r = slugOf r')) as [Heq|Hd].
           ++ rewrite <- Heq, lookup_insert_eq in Hr'. discriminate.
           ++ rewrite lookup_insert_ne in Hr' by exact Hd. exact Hr'.
      * intros [Hnd Hseen]. inversion Hnd as [|? ? Hnotin Hnd']; subst.
        inversion Hseen as [|? ? _ Hseen']; subst. split; [exact Hnd'|].
        apply Forall_forall. intros r' Hr'.
        rewrite lookup_insert_ne.
        -- rewrite Forall_forall in Hseen'. apply Hseen', Hr'.
        -- intros Heq. apply Hnotin. rewrite Heq.
           apply list_elem_of_In, in_map, list_elem_of_In, Hr'.
Qed.

(** X6. The validator accepts a row set exactly when every row satisfies
    the data-model invariant and no two rows have the same trimmed slug;
    otherwise it fails with the aggregated error. *)
Theorem validateRows_accepts_iff rows :
  (validateRows URL_protocol rows = inr tt
   <-> Forall validRow rows /\ NoDup (map slugOf rows))
  /\ (validateRows URL_protocol rows = inr tt
      \/ validateRows URL_protocol rows
         = inl (Error (validationMessage (collectErrors URL_protocol rows)))).
Proof.
  assert (Hnil : collectErrors URL_protocol rows = []
                 <-> Forall validRow rows /\ NoDup (map slugOf rows)).
  { unfold collectErrors. rewrite app_nil, checkRows_nil. split.
    - intros [Hv Hd]. split; [exact Hv|].
      apply (checkDuplicates_nil rows 0 ∅) in Hd as [Hd _]; [exact Hd|].
      eapply Forall_impl; [exact Hv|]. cbn. intros r Hr. apply Hr.
    - intros [Hv Hd]. split; [exact Hv|].
      apply (checkDuplicates_nil rows 0 ∅).
      + eapply Forall_impl; [exact Hv|]. cbn. intros r Hr. apply Hr.
      + split; [exact Hd|]. apply Forall_forall. intros r _. apply lookup_empty. }
  unfold validateRows. destruct (collectErrors URL_protocol rows) as [|e es] eqn:E.
  - cbn. split; [|left; reflexivity]. split; [intros _; apply Hnil; reflexivity | reflexivity].
  - cbn. split; [|right; reflexivity]. split; [discriminate|].
    intros H. apply Hnil in H. discriminate.
Qed.

End ValidatorMore.

(** ** The parser: rows and cells *)

Section ParserMore.

Implicit Types (hs cells : list jsstring) (row : Row) (k v line l : jsstring).

Definition PROTO : jsstring := js "__proto__".

(** The row after the first [m] turns of the loop that fills it. *)
Definition rowUpTo hs cells (m : nat) : Row :=
  foldl (fun row c => setProp (hs !!! c) (default [] (cells !! c)) row) ∅ (seq 0 m).

Lemma rowUpTo_S hs cells m :
  rowUpTo hs cells (S m)
  = setProp (hs !!! m) (default [] (cells !! m)) (rowUpTo hs cells m).
Proof. unfold rowUpTo. rewrite seq_S, foldl_snoc. reflexivity. Qed.

Lemma setProp_lookup_ne k k' v row : k <> k' -> setProp k v row !! k' = row !! k'.
Proof.
  intros H. unfold setProp. destruct (decide _); [reflexivity|]. apply lookup_insert_ne, H.
Qed.

Lemma setProp_lookup_eq k v row : k <> PROTO -> setProp k v row !! k = Some v.
Proof.
  intros H. unfold setProp. destruct (decide _) as [E|_]; [contradiction|].
  apply lookup_insert_eq.
Qed.

Lemma setProp_lookup_inv k k' v v' row :
  setProp k v row !! k' = Some v' -> (k' = k /\ k <> PROTO /\ v' = v) \/ row !! k' = Some v'.
Proof.
  unfold setProp. destruct (decide (k = js "__proto__")) as [E|E]; [auto|].
  destruct (decide (k = k')) as [<-|Hne].
  - rewrite lookup_insert_eq. intros [= <-]. left. auto.
  - rewrite lookup_insert_ne by exact Hne. auto.
Qed.

Lemma rowUpTo_inv hs cells m : (m <= length hs)%nat -> forall k v,
  rowUpTo hs cells m !! k = Some v ->
  exists c, (c < m)%nat /\ hs !! c = Some k /\ k <> PROTO /\ v = default [] (cells !! c).
Proof.
  induction m as [|m IH]; intros Hm k v H.
  - unfold rowUpTo in H. cbn in H. rewrite lookup_empty in H. discriminate.
  - rewrite rowUpTo_S in H. apply setProp_lookup_inv in H as [(-> & Hp & ->)|H].
    + exists m. repeat split; [lia | | exact Hp].
      apply list_lookup_lookup_total_lt. lia.
    + destruct (IH ltac:(lia) k v H) as (c & Hc & Hrest). exists c. split; [lia | exact Hrest].
Qed.

Lemma rowUpTo_last hs cells m c k :
  (m <= length hs)%nat -> (c < m)%nat -> hs !! c = Some k -> k <> PROTO ->
  (forall c', (c < c')%nat -> hs !! c' <> Some k) ->
  rowUpTo hs cells m !! k = Some (default [] (cells !! c)).
Proof.
  induction m as [|m IH]; intros Hm Hc Hk Hp Hlast; [lia|].
  rewrite rowUpTo_S.
  assert (Hm' : hs !! m = Some (hs !!! m)) by (apply list_lookup_lookup_total_lt; lia).
  destruct (decide (c = m)) as [->|Hne].
  - rewrite Hk in Hm'. injection Hm' as <-. apply setProp_lookup_eq, Hp.
  - rewrite setProp_lookup_ne.
    + apply IH; auto; lia.
    + intros E. apply (Hlast m); [lia|]. rewrite Hm', E. reflexivity.
Qed.

Lemma rowUpTo_is_Some hs cells m c k :
  (m <= length hs)%nat -> (c < m)%nat -> hs !! c = Some k -> k <> PROTO ->
  is_Some (rowUpTo hs cells m !! k).
Proof.
  induction m as [|m IH]; intros Hm Hc Hk Hp; [lia|].
  rewrite rowUpTo_S.
  destruct (decide (hs !!! m = k)) as [->|Hne].
  - rewrite setProp_lookup_eq by exact Hp. eauto.
  - rewrite setProp_lookup_ne by exact Hne.
    apply IH; auto; [lia|].
    destruct (decide (c = m)) as [->|]; [|lia].
    exfalso. apply Hne. apply list_lookup_total_correct, Hk.
Qed.

Lemma rowUpTo_ext hs cells1 cells2 m :
  (forall c, default [] (cells1 !! c) = default [] (cells2 !! c)) ->
  rowUpTo hs cells1 m = rowUpTo hs cells2 m.
Proof.
  intros H. induction m as [|m IH]; [reflexivity|].
  rewrite !rowUpTo_S, IH, H. reflexivity.
Qed.

Lemma padCells_default cells n c :
  default [] (padCells cells n !! c) = default [] (cells !! c).
Proof.
  unfold padCells. destruct (decide (c < length cells)%nat) as [Hlt|Hge].
  - rewrite lookup_app_l by exact Hlt. reflexivity.
  - rewrite lookup_app_r by lia.
    rewrite (proj2 (lookup_ge_None cells c)) by lia.
    destruct (replicate _ _ !! _) as [x|] eqn:E; [|reflexivity].
    apply lookup_replicate in E as [-> _]. reflexivity.
Qed.

Lemma mkRow_padded hs cells : mkRow hs (padCells cells (length hs)) = mkRow hs cells.
Proof. apply (rowUpTo_ext hs _ _ (length hs)), padCells_default. Qed.

(** X7. The object built for a row reads, under the name of a column, the
    cell at the position of that column: the last of them when the name is
    there more than once, and the empty string when the row has no cell
    that far. It has no other keys than column names, so cells beyond the
    header count are dropped; a column named [__proto__] creates no key;
    and padding the cells first makes no difference. *)
Theorem mkRow_reads_cells_by_column hs cells :
  (forall c k, hs !! c = Some k -> k <> PROTO ->
     (forall c', (c < c')%nat -> hs !! c' <> Some k) ->
     mkRow hs cells !! k = Some (default [] (cells !! c)))
  /\ (forall k v, mkRow hs cells !! k = Some v ->
        exists c, hs !! c = Some k /\ v = default [] (cells !! c))
  /\ (forall k, In k hs -> k <> PROTO -> is_Some (mkRow hs cells !! k))
  /\ mkRow hs cells !! PROTO = None
  /\ mkRow hs (padCells cells (length hs)) = mkRow hs cells.
Proof.
  change (mkRow hs cells) with (rowUpTo hs cells (length hs)).
  change (mkRow hs (padCells cells (length hs)))
    with (rowUpTo hs (padCells cells (length hs)) (length hs)).
  repeat split.
  - intros c k Hk Hp Hlast. apply rowUpTo_last; auto.
    apply lookup_lt_is_Some. eauto.
  - intros k v H. destruct (rowUpTo_inv hs cells _ (Nat.le_refl _) k v H) as (c & _ & Hc & _ & Hv).
    eauto.
  - intros k Hin Hp. apply list_elem_of_In, list_elem_of_lookup in Hin as (c & Hc).
    apply (rowUpTo_is_Some hs cells _ c); auto. apply lookup_lt_is_Some. eauto.
  - destruct (rowUpTo hs cells (length hs) !! PROTO) as [v|] eqn:E; [|reflexivity].
    destruct (rowUpTo_inv hs cells _ (Nat.le_refl _) _ _ E) as (_ & _ & _ & Hp & _).
    contradiction.
  - apply rowUpTo_ext, padCells_default.
Qed.

Lemma mkRow_reads_cells_spec hs cells :
  (forall k v, mkRow hs cells !! k = Some v ->
     exists c, hs !! c = Some k /\ v = default [] (cells !! c))
  /\ (forall k, In k hs -> k <> PROTO -> is_Some (mkRow hs cells !! k)).
Proof.
  change (mkRow hs cells) with (rowUpTo hs cells (length hs)). split.
  - intros k v H. destruct (rowUpTo_inv hs cells _ (Nat.le_refl _) k v H) as (c & _ & Hc & _ & Hv).
    eauto.
  - intros k Hin Hp. apply list_elem_of_In, list_elem_of_lookup in Hin as (c & Hc).
    apply (rowUpTo_is_Some hs cells _ c); auto. apply lookup_lt_is_Some. eauto.
Qed.

(** The text of a cell: nothing to trim, no pipe and no line feed in it. *)
Definition cellText v : Prop := trim v = v /\ Forall (fun c => c <> 124 /\ c <> 10) v.

Lemma splitLines_no_LF (s : jsstring) : Forall (Forall (fun c => c <> 10)) (splitLines s).
Proof.
  induction s as [|c s IH]; cbn [splitLines]; [repeat constructor|].
  destruct (Z.eqb_spec c 10) as [->|Hc]; [constructor; [constructor | exact IH]|].
  destruct ((c =? 13) && _); [exact IH|].
  destruct (splitLines s) as [|q qs]; [repeat constructor; exact Hc|].
  inversion IH; subst. constructor; [constructor|]; assumption.
Qed.

Lemma splitCells_shape line :
  Forall (fun c => c <> 10) line ->
  Forall (fun v => v <> [] /\ cellText v) (splitCells line).
Proof.
  intros Hline. apply Forall_forall. intros v Hv. unfold splitCells in Hv.
  apply list_elem_of_filter in Hv as [Hne Hv].
  apply list_elem_of_In, in_map_iff in Hv as (u & <- & Hu).
  split; [destruct (trim u); [discriminate Hne | discriminate]|].
  split; [apply trim_idempotent|]. apply Forall_trim.
  pose proof (split_pieces_free line 124) as Hp.
  pose proof (Forall_split (fun c => c <> 10) line 124 Hline) as Hl.
  rewrite Forall_forall in Hp, Hl.
  specialize (Hp u (proj2 (list_elem_of_In _ _) Hu)).
  specialize (Hl u (proj2 (list_elem_of_In _ _) Hu)).
  apply Forall_forall. intros c Hc. rewrite Forall_forall in Hp, Hl. auto.
Qed.

Lemma parseRows_In hs (lines : list jsstring) row :
  In row (parseRows hs lines) ->
  exists l, In l lines /\ pipeLine l = true /\ splitCells (trim l) <> []
            /\ row = mkRow hs (splitCells (trim l)).
Proof.
  induction lines as [|l rest IH]; cbn [parseRows]; [intros []|].
  fold (pipeLine l). destruct (pipeLine l) eqn:Hp; cbn [negb]; [|intros []].
  destruct (splitCells (trim l)) as [|c cs] eqn:Hc; cbn [length Nat.eqb].
  - intros H. destruct (IH H) as (l' & Hin & Hrest). exists l'. split; [right; exact Hin | exact Hrest].
  - intros [<-|H].
    + exists l. repeat split; [left; reflexivity | exact Hp | rewrite Hc; discriminate |].
      rewrite Hc. apply mkRow_padded.
    + destruct (IH H) as (l' & Hin & Hrest). exists l'. split; [right; exact Hin | exact Hrest].
Qed.

End ParserMore.

Section ParsedTables.

Implicit Types (hs cells : list jsstring) (row : Row) (k v line l : jsstring).

Lemma cellText_nil : cellText [].
Proof. split; [reflexivity | constructor]. Qed.

Lemma lookup_total_In (lines : list jsstring) i l : lines !! i = Some l -> lines !!! i = l.
Proof. apply list_lookup_total_correct. Qed.

(** X8. In the result of a successful parse every column name is a
    non-empty text with nothing to trim and no pipe or line feed in it;
    every row has a value under every column name (other than
    [__proto__]) and under nothing else, and every value is such a text,
    possibly empty. So a table whose header has the four required columns
    never yields a row that lacks one. *)
Theorem parsed_table_shape (mdText : jsstring) hs (rows : list Row) :
  parseMarkdownTable mdText = inr (hs, rows) ->
  Forall (fun h => h <> [] /\ cellText h) hs
  /\ Forall (fun row =>
       (forall k v, row !! k = Some v -> In k hs /\ cellText v)
       /\ (forall k, In k hs -> k <> PROTO -> is_Some (row !! k))) rows.
Proof.
  unfold parseMarkdownTable. set (lines := splitLines mdText).
  destruct (findStart lines 0) as [start|] eqn:Hf; [|discriminate].
  destruct (includes _ _); cbn [negb]; [|discriminate].
  intros [= <- <-].
  pose proof (splitLines_no_LF mdText) as Hlines. fold lines in Hlines.
  rewrite Forall_forall in Hlines.
  apply findStart_Some in Hf as (i & -> & (l & _ & Hl & _) & _). cbn [Nat.add].
  rewrite (lookup_total_In lines i l Hl). split.
  - apply splitCells_shape, Forall_trim, Hlines, list_elem_of_lookup. eauto.
  - apply Forall_forall. intros row Hrow.
    apply list_elem_of_In, parseRows_In in Hrow as (l' & Hin & _ & _ & ->).
    assert (Hcells : Forall (fun v => v <> [] /\ cellText v) (splitCells (trim l'))).
    { apply splitCells_shape, Forall_trim, Hlines.
      apply list_elem_of_In in Hin. exact (subseteq_drop _ _ _ Hin). }
    destruct (mkRow_reads_cells_spec (splitCells (trim l)) (splitCells (trim l')))
      as (Hinv & Hsome).
    split; [|exact Hsome].
    intros k v Hkv. destruct (Hinv k v Hkv) as (c & Hc & ->).
    split; [apply list_elem_of_In, list_elem_of_lookup; eauto|].
    destruct (splitCells (trim l') !! c) as [x|] eqn:E; cbn; [|apply cellText_nil].
    rewrite Forall_forall in Hcells. apply Hcells, list_elem_of_lookup. eauto.
Qed.

(** X9. The table ends at the first line that does not start with a pipe:
    whatever follows such a line is not read. A pipe line without a single
    non-empty cell is passed over as if it were not there. And the table has
    at most one row per line. *)
Theorem parseRows_stops_and_skips hs (a b : list jsstring) l :
  (pipeLine l = false -> parseRows hs (a ++ l :: b) = parseRows hs a)
  /\ (pipeLine l = true -> splitCells (trim l) = [] ->
      parseRows hs (a ++ l :: b) = parseRows hs (a ++ b))
  /\ (length (parseRows hs a) <= length a)%nat.
Proof.
  repeat split.
  - intros Hl. induction a as [|x a IH]; cbn [app parseRows].
    + fold (pipeLine l). rewrite Hl. reflexivity.
    + destruct (negb _); [reflexivity|]. destruct (Nat.eqb _ _); rewrite IH; reflexivity.
  - intros Hl Hc. induction a as [|x a IH]; cbn [app parseRows].
    + fold (pipeLine l). rewrite Hl, Hc. reflexivity.
    + destruct (negb _); [reflexivity|]. destruct (Nat.eqb _ _); rewrite IH; reflexivity.
  - induction a as [|x a IH]; cbn [parseRows length]; [lia|].
    destruct (negb _); [cbn; lia|]. destruct (Nat.eqb _ _); cbn [length]; lia.
Qed.

End ParsedTables.

(** ** Writing a table out and parsing it *)

Section RenderedTables.

Implicit Types (hs cells : list jsstring) (rows : list (list jsstring)) (v s l nl : jsstring).

(** A cell as a table shows it: not empty, nothing to trim, no pipe, no
    line feed. *)
Definition cell v : Prop := v <> [] /\ cellText v.

(** [| a | b |] *)
Definition renderRow cells : jsstring :=
  PIPE ++ flat_map (fun c => [32] ++ c ++ [32] ++ PIPE) cells.

(** [|---|---|] *)
Definition delimiterRow (n : nat) : jsstring :=
  PIPE ++ flat_map (fun _ => js "---" ++ PIPE) (seq 0 n).

(** The header row, the delimiter row and the rows, one per line, with
    [nl] between lines. *)
Definition renderTable nl hs rows : jsstring :=
  join (renderRow hs :: delimiterRow (length hs) :: map renderRow rows) nl.

Lemma split_rendered cells :
  Forall cell cells ->
  split (flat_map (fun c => [32] ++ c ++ [32] ++ PIPE) cells) 124
  = map (fun c => [32] ++ c ++ [32]) cells ++ [[]].
Proof.
  induction 1 as [|c cs (_ & _ & Hc) _ IH]; [reflexivity|].
  cbn [flat_map map].
  replace (([32] ++ c ++ [32] ++ PIPE) ++ flat_map (fun c0 => [32] ++ c0 ++ [32] ++ PIPE) cs)
    with (([32] ++ c ++ [32]) ++ 124 :: flat_map (fun c0 => [32] ++ c0 ++ [32] ++ PIPE) cs)
    by (rewrite <- !app_assoc; reflexivity).
  rewrite split_app, IH; [reflexivity|].
  apply Forall_app; split; [repeat constructor; lia|].
  apply Forall_app; split; [|repeat constructor; lia].
  eapply Forall_impl; [exact Hc|]. cbn. intros x [Hx _]. exact Hx.
Qed.

Lemma blank_space : blank [32].
Proof. repeat constructor. Qed.

Lemma splitCells_renderRow cells : Forall cell cells -> splitCells (renderRow cells) = cells.
Proof.
  intros H. unfold splitCells, renderRow.
  change (PIPE ++ ?x) with (124 :: x). cbn [split]. rewrite Z.eqb_refl, split_rendered by exact H.
  cbn [map]. rewrite filter_cons_False by (cbn; congruence).
  rewrite map_app, map_map. cbn [map].
  rewrite filter_app, filter_cons_False, filter_nil, app_nil_r by (cbn; congruence).
  induction H as [|c cs (Hne & Htr & _) _ IH]; [reflexivity|].
  cbn [map]. rewrite (trim_padded [32] c [32] blank_space blank_space Htr).
  rewrite filter_cons_True by (destruct c; [congruence | reflexivity]).
  rewrite IH. reflexivity.
Qed.

(** A line that starts and ends with a pipe. *)
Definition piped l : Prop := (exists t, l = 124 :: t) /\ last l = Some 124.

Lemma last_pipes {A} (f : A -> jsstring) (xs : list A) :
  last (PIPE ++ flat_map (fun x => f x ++ PIPE) xs) = Some 124.
Proof.
  change (PIPE ++ ?x) with (124 :: x). rewrite last_cons.
  assert (H : last (flat_map (fun x => f x ++ PIPE) xs) = None
              \/ last (flat_map (fun x => f x ++ PIPE) xs) = Some 124).
  { induction xs as [|x xs IH]; [left; reflexivity|]. right.
    cbn [flat_map]. rewrite last_app.
    destruct IH as [-> | ->]; [|reflexivity]. change PIPE with [124]. apply last_snoc. }
  destruct H as [-> | ->]; reflexivity.
Qed.

Lemma renderRow_piped cells : piped (renderRow cells).
Proof.
  split; [eexists; reflexivity|].
  unfold renderRow.
  replace (flat_map (fun c => [32] ++ c ++ [32] ++ PIPE) cells)
    with (flat_map (fun c => ([32] ++ c ++ [32]) ++ PIPE) cells)
    by (apply flat_map_ext; intros c; rewrite <- !app_assoc; reflexivity).
  apply (last_pipes (fun c => [32] ++ c ++ [32])).
Qed.

Lemma delimiterRow_piped n : piped (delimiterRow n).
Proof. split; [eexists; reflexivity|]. apply (last_pipes (fun _ => js "---")). Qed.

Lemma piped_trim l : piped l -> trim l = l.
Proof.
  intros [[t ->] Hl]. apply trim_fixed. split; [reflexivity|].
  apply last_Some in Hl as (l' & Hl). unfold cleanEnd. rewrite Hl, rev_app_distr. reflexivity.
Qed.

Lemma piped_pipeLine l : piped l -> pipeLine l = true.
Proof.
  intros H. unfold pipeLine. rewrite (piped_trim l H). destruct H as [[t ->] _]. reflexivity.
Qed.

Lemma piped_no_CR l : piped l -> last l <> Some 13.
Proof. intros [_ ->]. discriminate. Qed.

Lemma renderRow_no_LF cells : Forall cell cells -> Forall (fun c => c <> 10) (renderRow cells).
Proof.
  intros H. unfold renderRow. apply Forall_app. split; [repeat constructor; discriminate|].
  apply Forall_flat_map. eapply Forall_impl; [exact H|]. cbn. intros c (_ & _ & Hc).
  constructor; [lia|]. apply Forall_app. split.
  - eapply Forall_impl; [exact Hc|]. cbn. intros x [_ Hx]. exact Hx.
  - repeat constructor; discriminate.
Qed.

Lemma delimiterRow_no_LF n : Forall (fun c => c <> 10) (delimiterRow n).
Proof.
  unfold delimiterRow. apply Forall_app. split; [repeat constructor; discriminate|].
  apply Forall_flat_map, Forall_forall. intros x _. repeat constructor; discriminate.
Qed.

Lemma delimiterRow_dashes n : includes (delimiterRow (S n)) (js "---") = true.
Proof.
  unfold delimiterRow. cbn [seq flat_map]. rewrite <- app_assoc. apply includes_app.
Qed.

(** A line feed, alone or after a carriage return. *)
Definition newline nl : Prop := nl = [10] \/ nl = [13; 10].

Lemma splitLines_line l nl (rest : jsstring) :
  newline nl -> Forall (fun c => c <> 10) l -> last l <> Some 13 ->
  splitLines (l ++ nl ++ rest) = l :: splitLines rest.
Proof.
  intros Hnl Hl. induction Hl as [|c l Hc Hl IH]; intros Hlast.
  - destruct Hnl as [-> | ->]; reflexivity.
  - cbn [app splitLines]. apply Z.eqb_neq in Hc. rewrite Hc.
    destruct l as [|d l].
    + assert (c <> 13) by (intros ->; apply Hlast; reflexivity).
      apply Z.eqb_neq in H. rewrite H. cbn [andb].
      change ([] ++ nl ++ rest) with (nl ++ rest) in *. rewrite (IH ltac:(discriminate)).
      reflexivity.
    + inversion Hl as [|? ? Hd _]; subst. apply Z.eqb_neq in Hd.
      cbn [app]. rewrite Hd, andb_false_r.
      change (d :: l ++ nl ++ rest) with ((d :: l) ++ nl ++ rest).
      rewrite IH; [reflexivity|]. rewrite last_cons_cons in Hlast. exact Hlast.
Qed.

Lemma splitLines_last l : Forall (fun c => c <> 10) l -> last l <> Some 13 -> splitLines l = [l].
Proof.
  intros Hl. induction Hl as [|c l Hc Hl IH]; intros Hlast; [reflexivity|].
  cbn [splitLines]. apply Z.eqb_neq in Hc. rewrite Hc.
  destruct l as [|d l].
  - rewrite andb_false_r. reflexivity.
  - inversion Hl as [|? ? Hd _]; subst. apply Z.eqb_neq in Hd. rewrite Hd, andb_false_r.
    rewrite IH; [reflexivity|]. rewrite last_cons_cons in Hlast. exact Hlast.
Qed.

Lemma splitLines_join (L : list jsstring) nl :
  newline nl -> L <> [] ->
  Forall (fun l => Forall (fun c => c <> 10) l /\ last l <> Some 13) L ->
  splitLines (join L nl) = L.
Proof.
  intros Hnl Hne HL. induction HL as [|l L [Hl Hc] HL IH]; [congruence|].
  destruct L as [|l' L].
  - cbn [join]. apply splitLines_last; assumption.
  - change (join (l :: l' :: L) nl) with (l ++ nl ++ join (l' :: L) nl).
    rewrite splitLines_line by assumption. rewrite IH by discriminate. reflexivity.
Qed.

Lemma parseRows_rendered hs rows :
  Forall (fun cells => cells <> [] /\ Forall cell cells) rows ->
  parseRows hs (map renderRow rows) = map (mkRow hs) rows.
Proof.
  induction 1 as [|cells rows [Hne Hc] _ IH]; [reflexivity|].
  cbn [map parseRows]. fold (pipeLine (renderRow cells)).
  rewrite (piped_pipeLine _ (renderRow_piped cells)). cbn [negb].
  rewrite (piped_trim _ (renderRow_piped cells)), (splitCells_renderRow cells Hc).
  destruct cells as [|c cells]; [congruence|]. cbn [length Nat.eqb].
  rewrite mkRow_padded, IH. reflexivity.
Qed.

(** X10. A table written out in the usual way is parsed back to what was
    written: with at least one column, cells that are not empty, have
    nothing to trim and hold no pipe or line feed, and at least one cell in
    every row, the parser returns the column names and, for each row in
    order, the object of its cells under the column names. Lines ending in
    a carriage return and a line feed are read like lines ending in a line
    feed. *)
Theorem parse_rendered_table nl hs rows :
  newline nl -> hs <> [] -> Forall cell hs ->
  Forall (fun cells => cells <> [] /\ Forall cell cells) rows ->
  parseMarkdownTable (renderTable nl hs rows) = inr (hs, map (mkRow hs) rows).
Proof.
  intros Hnl Hhs Hcells Hrows.
  assert (Hlines : splitLines (renderTable nl hs rows)
                   = renderRow hs :: delimiterRow (length hs) :: map renderRow rows).
  { apply splitLines_join; [exact Hnl | discriminate|].
    constructor; [split; [apply renderRow_no_LF, Hcells | apply piped_no_CR, renderRow_piped]|].
    constructor; [split; [apply delimiterRow_no_LF | apply piped_no_CR, delimiterRow_piped]|].
    apply Forall_forall. intros l Hl.
    apply list_elem_of_In, in_map_iff in Hl as (cells & <- & Hin).
    rewrite List.Forall_forall in Hrows. destruct (Hrows cells Hin) as [_ Hc].
    split; [apply renderRow_no_LF, Hc | apply piped_no_CR, renderRow_piped]. }
  unfold parseMarkdownTable. rewrite Hlines, findStart_step.
  rewrite (piped_pipeLine _ (renderRow_piped hs)),
          (piped_pipeLine _ (delimiterRow_piped (length hs))).
  cbn [andb Nat.add]. change ((?a :: ?b :: ?c) !!! 0%nat) with a.
  change ((?a :: ?b :: ?c) !!! 1%nat) with b. cbn [drop].
  rewrite (piped_trim _ (renderRow_piped hs)), (piped_trim _ (delimiterRow_piped (length hs))).
  destruct hs as [|h hs']; [congruence|]. cbn [length].
  rewrite delimiterRow_dashes. cbn [negb].
  rewrite (splitCells_renderRow _ Hcells), (parseRows_rendered _ rows Hrows). reflexivity.
Qed.

End RenderedTables.

Example renderTable_text :
  renderTable [10] [js "slug"; js "title"] [[js "a"; js "Alpha"]; [js "b"]]
  = js "| slug | title |" ++ [10] ++ js "|---|---|" ++ [10]
    ++ js "| a | Alpha |" ++ [10] ++ js "| b |".
Proof. vm_compute. reflexivity. Qed.

(** ** The run of the builder: what it touches, running it again, failing
    half-way *)

Section MainMore.

Variable URL_protocol : jsstring -> option jsstring.

Implicit Types (w : World) (p name : jsstring).

(** A computation that leaves what is under the path [p] as it is. *)
Definition keepsPath {A} p (m : M A) : Prop :=
  forall w, files (m w).2 !! p = files w !! p.

Lemma keepsPath_bind {A B} p (m : M A) (f : A -> M B) :
  keepsPath p m -> (forall a, keepsPath p (f a)) -> keepsPath p (m ≫= f).
Proof.
  intros Hm Hf w. unfold mbind, M_bind.
  specialize (Hm w). destruct (m w) as [[e|a] w']; [exact Hm|].
  rewrite <- Hm. apply Hf.
Qed.

Lemma keepsPath_liftE {A} p (r : exn + A) : keepsPath p (liftE r).
Proof. intros w. reflexivity. Qed.

Lemma keepsPath_read p q : keepsPath p (readFileSync q).
Proof. intros w. unfold readFileSync. destruct (files w !! q) as [[d|]|]; reflexivity. Qed.

Lemma keepsPath_log p line : keepsPath p (console_log line).
Proof. intros w. reflexivity. Qed.

Lemma keepsPath_mkdir p q : p <> q -> keepsPath p (ensureDir q).
Proof.
  intros H w. unfold ensureDir, mkdirSync.
  destruct (files w !! q) as [[d|]|]; cbn; rewrite ?lookup_insert_ne by congruence; reflexivity.
Qed.

Lemma keepsPath_write p q buf : p <> q -> keepsPath p (writeFileSync q buf).
Proof.
  intros H w. unfold writeFileSync.
  destruct (files w !! q) as [[d|]|]; cbn; rewrite ?lookup_insert_ne by congruence; reflexivity.
Qed.

(** X11. Whatever the run does and however it ends, it leaves alone every
    path other than the output directory, [dist/registry.tsv] and the
    hash-named files [dist/registry.<v>.tsv]; the input file is one of the
    paths left alone. *)
Theorem main_touches_only_its_outputs w p :
  p <> OUT_DIR ->
  p <> path_join OUT_DIR (js "registry.tsv") ->
  (forall v, p <> path_join OUT_DIR (js "registry." ++ v ++ js ".tsv")) ->
  files (main URL_protocol w).2 !! p = files w !! p
  /\ files (main URL_protocol w).2 !! INPUT_MD = files w !! INPUT_MD.
Proof.
  assert (H : forall q, q <> OUT_DIR -> q <> path_join OUT_DIR (js "registry.tsv") ->
                (forall v, q <> path_join OUT_DIR (js "registry." ++ v ++ js ".tsv")) ->
                keepsPath q (main URL_protocol)).
  { intros q H1 H2 H3. unfold main.
    apply keepsPath_bind; [apply keepsPath_mkdir, H1|]. intros _.
    apply keepsPath_bind; [apply keepsPath_read|]. intros md.
    apply keepsPath_bind; [apply keepsPath_liftE|]. intros [hs rows].
    apply keepsPath_bind; [apply keepsPath_liftE|]. intros _. cbv zeta.
    apply keepsPath_bind; [apply keepsPath_write, H2|]. intros _.
    apply keepsPath_bind; [apply keepsPath_write, H3|]. intros _.
    repeat (apply keepsPath_bind; [apply keepsPath_log|]; intros _).
    apply keepsPath_log. }
  intros H1 H2 H3. split; [apply H; assumption|].
  apply H.
  - apply INPUT_not_OUT.
  - intros E. symmetry in E. exact (inside_not_INPUT _ E).
  - intros v E. symmetry in E. exact (inside_not_INPUT _ E).
Qed.

(** The world after a run that wrote both files. *)
Definition built w (rows : list Row) : World :=
  let version := versionOf (buildTSVBody rows) in
  let fullBuf := Buffer.from_utf8 ((js "#v=" ++ version ++ LF) ++ buildTSVBody rows) in
  let hashedName := js "registry." ++ version ++ js ".tsv" in
  {| files := <[path_join OUT_DIR hashedName := File fullBuf]>
                (<[path_join OUT_DIR (js "registry.tsv") := File fullBuf]> (files (withDist w)));
     stdout := stdout w ++ [js "Built " ++ ofNat (length rows) ++ js " entries";
                            js "version: " ++ version;
                            js "dist/registry.tsv";
                            js "dist/" ++ hashedName] |}.

Definition stableMissingOrFile w : Prop :=
  files w !! path_join OUT_DIR (js "registry.tsv") <> Some Dir.

Definition hashedPath (rows : list Row) : jsstring :=
  path_join OUT_DIR (js "registry." ++ versionOf (buildTSVBody rows) ++ js ".tsv").

(** The writes and the prints at the end of the run. *)
Lemma main_writes w data hs rows :
  (forall d, files w !! OUT_DIR <> Some (File d)) ->
  files w !! INPUT_MD = Some (File data) ->
  parseMarkdownTable (Buffer.toString_utf8 data) = inr (hs, rows) ->
  validateRows URL_protocol rows = inr tt ->
  main URL_protocol w =
    let fullBuf := Buffer.from_utf8 ((js "#v=" ++ versionOf (buildTSVBody rows) ++ LF)
                                     ++ buildTSVBody rows) in
    match files w !! path_join OUT_DIR (js "registry.tsv") with
    | Some Dir => (inl (SystemError "EISDIR" (path_join OUT_DIR (js "registry.tsv"))), withDist w)
    | _ =>
        match files w !! hashedPath rows with
        | Some Dir =>
            (inl (SystemError "EISDIR" (hashedPath rows)),
             {| files := <[path_join OUT_DIR (js "registry.tsv") := File fullBuf]>
                           (files (withDist w));
                stdout := stdout w |})
        | _ => (inr tt, built w rows)
        end
    end.
Proof.
  intros Hdir Hin Hparse Hv.
  rewrite (main_validated URL_protocol w data hs rows Hdir Hin Hparse), Hv. cbv zeta.
  fold (hashedPath rows).
  set (content := Buffer.from_utf8 _).
  set (stable := path_join OUT_DIR (js "registry.tsv")).
  assert (Hs : files (withDist w) !! stable = files w !! stable)
    by (apply withDist_other, inside_not_OUT).
  destruct (files w !! stable) as [[d|]|] eqn:Es.
  2: { apply bind_throw. unfold writeFileSync. rewrite Hs. reflexivity. }
  all: (erewrite bind_value by (apply writeFileSync_ok; rewrite Hs; discriminate));
    (assert (Hh : <[stable := File content]> (files (withDist w)) !! hashedPath rows
                  = files w !! hashedPath rows)
      by (rewrite lookup_insert_ne by (intros E; symmetry in E; exact (hashed_not_stable _ E));
          apply withDist_other, inside_not_OUT));
    destruct (files w !! hashedPath rows) as [[d'|]|] eqn:Eh.
  2, 5: (apply bind_throw; unfold writeFileSync; cbn [files]; rewrite Hh, withDist_stdout;
         reflexivity).
  all: (erewrite bind_value by (apply writeFileSync_ok; cbn [files]; rewrite Hh; discriminate));
    unfold built, mbind, M_bind, console_log; cbn [files stdout];
    do 2 f_equal; rewrite withDist_stdout, <- !app_assoc; reflexivity.
Qed.

End MainMore.

Section MainRuns.

Variable URL_protocol : jsstring -> option jsstring.

Implicit Types (w : World).

(** The run, outcome by outcome. *)
Lemma main_outcomes w :
  main URL_protocol w =
    match files w !! OUT_DIR with
    | Some (File _) => (inl (SystemError "EEXIST" OUT_DIR), w)
    | _ =>
        match files w !! INPUT_MD with
        | None => (inl (SystemError "ENOENT" INPUT_MD), withDist w)
        | Some Dir => (inl (SystemError "EISDIR" INPUT_MD), withDist w)
        | Some (File data) =>
            match parseMarkdownTable (Buffer.toString_utf8 data) with
            | inl e => (inl e, withDist w)
            | inr (hs, rows) =>
                match validateRows URL_protocol rows with
                | inl e => (inl e, withDist w)
                | inr _ =>
                    let fullBuf :=
                      Buffer.from_utf8 ((js "#v=" ++ versionOf (buildTSVBody rows) ++ LF)
                                        ++ buildTSVBody rows) in
                    match files w !! path_join OUT_DIR (js "registry.tsv") with
                    | Some Dir =>
                        (inl (SystemError "EISDIR" (path_join OUT_DIR (js "registry.tsv"))),
                         withDist w)
                    | _ =>
                        match files w !! hashedPath rows with
                        | Some Dir =>
                            (inl (SystemError "EISDIR" (hashedPath rows)),
                             {| files := <[path_join OUT_DIR (js "registry.tsv") := File fullBuf]>
                                           (files (withDist w));
                                stdout := stdout w |})
                        | _ => (inr tt, built w rows)
                        end
                    end
                end
            end
        end
    end.
Proof.
  assert (Hfile : forall d, files w !! OUT_DIR = Some (File d) ->
            main URL_protocol w = (inl (SystemError "EEXIST" OUT_DIR), w)).
  { intros d E. unfold main. apply bind_throw. unfold ensureDir, mkdirSync. rewrite E. reflexivity. }
  assert (Hrest : (forall d, files w !! OUT_DIR <> Some (File d)) ->
            main URL_protocol w =
            match files w !! INPUT_MD with
            | None => (inl (SystemError "ENOENT" INPUT_MD), withDist w)
            | Some Dir => (inl (SystemError "EISDIR" INPUT_MD), withDist w)
            | Some (File data) =>
                match parseMarkdownTable (Buffer.toString_utf8 data) with
                | inl e => (inl e, withDist w)
                | inr (hs, rows) =>
                    match validateRows URL_protocol rows with
                    | inl e => (inl e, withDist w)
                    | inr _ =>
                        let fullBuf :=
                          Buffer.from_utf8 ((js "#v=" ++ versionOf (buildTSVBody rows) ++ LF)
                                            ++ buildTSVBody rows) in
                        match files w !! path_join OUT_DIR (js "registry.tsv") with
                        | Some Dir =>
                            (inl (SystemError "EISDIR" (path_join OUT_DIR (js "registry.tsv"))),
                             withDist w)
                        | _ =>
                            match files w !! hashedPath rows with
                            | Some Dir =>
                                (inl (SystemError "EISDIR" (hashedPath rows)),
                                 {| files := <[path_join OUT_DIR (js "registry.tsv") := File fullBuf]>
                                               (files (withDist w));
                                    stdout := stdout w |})
                            | _ => (inr tt, built w rows)
                            end
                        end
                    end
                end
            end).
  { intros Hdir.
    destruct (files w !! INPUT_MD) as [[data|]|] eqn:Hin.
    - destruct (parseMarkdownTable (Buffer.toString_utf8 data)) as [e|[hs rows]] eqn:Hp.
      + unfold main. rewrite (bind_value _ _ w tt (withDist w) (ensureDir_ok w Hdir)).
        erewrite bind_value by (rewrite readFileSync_withDist, Hin; reflexivity).
        apply bind_throw. unfold liftE. rewrite Hp. reflexivity.
      + destruct (validateRows URL_protocol rows) as [e|[]] eqn:Hv.
        * rewrite (main_validated URL_protocol w data hs rows Hdir Hin Hp), Hv. reflexivity.
        * apply (main_writes URL_protocol w data hs rows Hdir Hin Hp Hv).
    - unfold main. rewrite (bind_value _ _ w tt (withDist w) (ensureDir_ok w Hdir)).
      apply bind_throw. rewrite readFileSync_withDist, Hin. reflexivity.
    - unfold main. rewrite (bind_value _ _ w tt (withDist w) (ensureDir_ok w Hdir)).
      apply bind_throw. rewrite readFileSync_withDist, Hin. reflexivity. }
  destruct (files w !! OUT_DIR) as [[d|]|] eqn:E.
  - apply (Hfile d). reflexivity.
  - apply Hrest. intros d. discriminate.
  - apply Hrest. intros d. discriminate.
Qed.

Lemma main_success_inv w u w1 :
  main URL_protocol w = (inr u, w1) ->
  exists data hs rows,
    (forall d, files w !! OUT_DIR <> Some (File d))
    /\ files w !! INPUT_MD = Some (File data)
    /\ parseMarkdownTable (Buffer.toString_utf8 data) = inr (hs, rows)
    /\ validateRows URL_protocol rows = inr tt
    /\ w1 = built w rows.
Proof.
  rewrite main_outcomes.
  destruct (files w !! OUT_DIR) as [[d|]|] eqn:E; [discriminate|..];
    (destruct (files w !! INPUT_MD) as [[data|]|] eqn:Hin; [|discriminate..];
     destruct (parseMarkdownTable (Buffer.toString_utf8 data)) as [e|[hs rows]] eqn:Hp;
       [discriminate|];
     destruct (validateRows URL_protocol rows) as [e|[]] eqn:Hv; [discriminate|];
     cbv zeta;
     destruct (files w !! path_join OUT_DIR (js "registry.tsv")) as [[d1|]|];
       [|discriminate|];
     (destruct (files w !! hashedPath rows) as [[d2|]|]; [|discriminate|]);
     intros [= <- <-]; exists data, hs, rows;
     repeat split;
     first [assumption | reflexivity | (intros d'; discriminate)]).
Qed.

Lemma built_lookups w rows :
  (forall d, files w !! OUT_DIR <> Some (File d)) ->
  let fullBuf := Buffer.from_utf8 ((js "#v=" ++ versionOf (buildTSVBody rows) ++ LF)
                                   ++ buildTSVBody rows) in
  files (built w rows) !! OUT_DIR = Some Dir
  /\ files (built w rows) !! INPUT_MD = files w !! INPUT_MD
  /\ files (built w rows) !! path_join OUT_DIR (js "registry.tsv") = Some (File fullBuf)
  /\ files (built w rows) !! hashedPath rows = Some (File fullBuf).
Proof.
  intros Hdir fullBuf. unfold built. cbn [files]. fold (hashedPath rows). repeat split.
  - rewrite !lookup_insert_ne by apply inside_not_OUT. apply withDist_OUT, Hdir.
  - rewrite !lookup_insert_ne by apply inside_not_INPUT. apply withDist_other, INPUT_not_OUT.
  - rewrite lookup_insert_ne by apply hashed_not_stable. apply lookup_insert_eq.
  - apply lookup_insert_eq.
Qed.

(** X12. Running the builder again after a successful run, on what that
    run left, succeeds again and leaves every file and directory exactly as
    it was; it prints the same lines once more. *)
Theorem rerun_changes_no_file w w1 :
  main URL_protocol w = (inr tt, w1) ->
  main URL_protocol w1
  = (inr tt, {| files := files w1;
                stdout := stdout w1 ++ drop (length (stdout w)) (stdout w1) |}).
Proof.
  intros H. apply main_success_inv in H as (data & hs & rows & Hdir & Hin & Hp & Hv & ->).
  destruct (built_lookups w rows Hdir) as (Ho & Hi & Hs & Hh).
  rewrite main_outcomes, Ho, Hi, Hin, Hp, Hv. cbv zeta. rewrite Hs, Hh.
  f_equal. unfold built at 1.
  assert (Hw : withDist (built w rows) = built w rows).
  { unfold withDist at 1. rewrite Ho. reflexivity. }
  rewrite Hw. fold (hashedPath rows). f_equal.
  - rewrite (insert_id _ _ _ Hs). apply (insert_id _ _ _ Hh).
  - f_equal. unfold built. cbn [stdout]. rewrite drop_app_length. reflexivity.
Qed.

(** X13. The two files are written one after the other and nothing is
    undone. When [dist/registry.tsv] is a directory the run fails there and
    writes nothing. When instead the place of the hash-named file is taken
    by a directory, the run fails on the second write, after
    [dist/registry.tsv] has been given the new content, which stays, and
    prints nothing. *)
Theorem write_failures_are_not_rolled_back w data hs rows :
  (forall d, files w !! OUT_DIR <> Some (File d)) ->
  files w !! INPUT_MD = Some (File data) ->
  parseMarkdownTable (Buffer.toString_utf8 data) = inr (hs, rows) ->
  validateRows URL_protocol rows = inr tt ->
  let stable := path_join OUT_DIR (js "registry.tsv") in
  let content := Buffer.from_utf8 ((js "#v=" ++ versionOf (buildTSVBody rows) ++ LF)
                                   ++ buildTSVBody rows) in
  (files w !! stable = Some Dir ->
     main URL_protocol w = (inl (SystemError "EISDIR" stable), withDist w))
  /\ (files w !! stable <> Some Dir -> files w !! hashedPath rows = Some Dir ->
      exists w',
        main URL_protocol w = (inl (SystemError "EISDIR" (hashedPath rows)), w')
        /\ files w' !! stable = Some (File content)
        /\ files w' !! hashedPath rows = Some Dir
        /\ stdout w' = stdout w).
Proof.
  intros Hdir Hin Hp Hv stable content.
  rewrite (main_writes URL_protocol w data hs rows Hdir Hin Hp Hv). cbv zeta.
  fold stable. fold content. split.
  - intros ->. reflexivity.
  - intros Hs Hh. rewrite Hh.
    destruct (files w !! stable) as [[d|]|] eqn:E; [|congruence|];
      (eexists; split; [reflexivity|]; cbn [files stdout]; repeat split;
       [apply lookup_insert_eq |
        rewrite lookup_insert_ne by (intros E'; symmetry in E'; exact (hashed_not_stable _ E'));
        rewrite withDist_other by apply inside_not_OUT; exact Hh]).
Qed.

End MainRuns.

(** ** The static server: every request *)

Module ServerMore.

Import Server.
Local Open Scope string_scope.
Local Open Scope nat_scope.









Section Requests.

Variable NewWriterLevel : Z -> option (list Z -> list Z).
Variable fs : Handler.







End Requests.

End ServerMore.

(** ** The further properties at concrete inputs *)

Definition ftp_rows : list Row :=
  [mkEntry "a" "Alpha" "https://a.example" "x"; mkEntry "f" "Files" "ftp://example.com" "y"].

Lemma every_violation_reported_witness :
  In (js "Row " ++ ofNat (1 + 1) ++ js ": url is not http(s): " ++ [34]
        ++ trim (getProp (mkEntry "f" "Files" "ftp://example.com" "y") (js "url")) ++ [34])
     (collectErrors schemeOnly ftp_rows).
Proof.
  destruct (every_violation_reported schemeOnly ftp_rows 1
              (mkEntry "f" "Files" "ftp://example.com" "y") eq_refl) as [Hall Hurl].
  apply Hall, Hurl; [vm_compute; discriminate | vm_compute; reflexivity].
Defined.

Lemma parsed_table_shape_witness :
  Forall (fun h => h <> [] /\ cellText h) [js "slug"; js "title"; js "url"; js "tags"]
  /\ Forall (fun row =>
       (forall k v, row !! k = Some v ->
          In k [js "slug"; js "title"; js "url"; js "tags"] /\ cellText v)
       /\ (forall k, In k [js "slug"; js "title"; js "url"; js "tags"] -> k <> PROTO ->
           is_Some (row !! k))) demo_rows.
Proof. exact (parsed_table_shape demo_md _ demo_rows demo_parse). Defined.

Definition written_headers : list jsstring := [js "slug"; js "title"; js "url"; js "tags"].
Definition written_rows : list (list jsstring) :=
  [[js "a"; js "Alpha"; js "https://a.example"; js "x, y"]; [js "b"]].

Lemma parse_rendered_table_witness :
  parseMarkdownTable (renderTable [13; 10] written_headers written_rows)
  = inr (written_headers, map (mkRow written_headers) written_rows).
Proof.
  apply parse_rendered_table.
  - right. reflexivity.
  - discriminate.
  - repeat constructor; first [discriminate | lia | vm_compute; reflexivity].
  - repeat constructor; first [discriminate | lia | vm_compute; reflexivity].
Defined.

Lemma outside_dist (p : jsstring) :
  head p <> Some 100 -> forall name, p <> path_join OUT_DIR name.
Proof. intros H name ->. apply H. reflexivity. Qed.

Lemma main_touches_only_its_outputs_witness :
  files (main schemeOnly demo_world).2 !! js "notes.txt" = files demo_world !! js "notes.txt"
  /\ files (main schemeOnly demo_world).2 !! INPUT_MD = files demo_world !! INPUT_MD.
Proof.
  apply main_touches_only_its_outputs.
  - vm_compute. discriminate.
  - apply outside_dist. vm_compute. discriminate.
  - intros v. apply outside_dist. vm_compute. discriminate.
Defined.

Lemma rerun_changes_no_file_witness :
  main schemeOnly (main schemeOnly demo_world).2
  = (inr tt, {| files := files (main schemeOnly demo_world).2;
                stdout := stdout (main schemeOnly demo_world).2
                          ++ drop (length (stdout demo_world))
                                  (stdout (main schemeOnly demo_world).2) |}).
Proof.
  apply rerun_changes_no_file. vm_compute. reflexivity.
Defined.

(** A working directory in which the place of the hash-named file is taken
    by a directory. *)
Definition blocked_world : World :=
  {| files := <[hashedPath demo_rows := Dir]>
                (<[OUT_DIR := Dir]> {[ INPUT_MD := File (Buffer.from_utf8 demo_md) ]});
     stdout := [] |}.

Lemma write_failures_are_not_rolled_back_witness :
  exists w',
    main schemeOnly blocked_world = (inl (SystemError "EISDIR" (hashedPath demo_rows)), w')
    /\ files w' !! path_join OUT_DIR (js "registry.tsv")
       = Some (File (Buffer.from_utf8 ((js "#v=" ++ versionOf (buildTSVBody demo_rows) ++ LF)
                                       ++ buildTSVBody demo_rows)))
    /\ files w' !! hashedPath demo_rows = Some Dir
    /\ stdout w' = stdout blocked_world.
Proof.
  refine (proj2 (write_failures_are_not_rolled_back schemeOnly blocked_world
                   (Buffer.from_utf8 demo_md) written_headers demo_rows _ _ _ _) _ _).
  - intros d. vm_compute. discriminate.
  - vm_compute. reflexivity.
  - vm_compute. reflexivity.
  - vm_compute. reflexivity.
  - vm_compute. discriminate.
  - vm_compute. reflexivity.
Defined.




(** ** The extension the middleware looks at *)

Module ExtFacts.

Import Server.
Local Open Scope string_scope.
Local Open Scope nat_scope.

(** A file name part: no dot and no slash in it. *)
Definition plainName (e : string) : Prop :=
  forall k c, String.get k e = Some c -> c <> "."%char /\ c <> "/"%char.

Lemma get_lt (e : string) k : k < String.length e -> exists c, String.get k e = Some c.
Proof.
  revert k. induction e as [|a e IH]; intros k Hk; [simpl in Hk; lia|].
  destruct k as [|k]; [exists a; reflexivity|].
  simpl in Hk. cbn [String.get]. apply IH. lia.
Qed.

Lemma extFrom_after_dot (x e : string) k :
  plainName e -> k <= String.length e ->
  extFrom (x ++ String "." e) (String.length x + 1 + k) = String "." e.
Proof.
  intros He. induction k as [|k IH]; intros Hk.
  - replace (String.length x + 1 + 0) with (S (String.length x + 0)) by lia.
    cbn [extFrom]. rewrite ServerFacts.get_append_r. cbn [String.get].
    change (Ascii.eqb "." "/") with false. change (Ascii.eqb "." ".") with true. cbn iota.
    rewrite ServerFacts.length_append, Nat.add_0_r.
    replace (String.length x + String.length (String "." e) - String.length x)
      with (String.length (String "." e)) by lia.
    apply ServerFacts.substring_append_r.
  - replace (String.length x + 1 + S k) with (S (String.length x + S k)) by lia.
    cbn [extFrom]. rewrite ServerFacts.get_append_r. cbn [String.get].
    destruct (get_lt e k ltac:(lia)) as (c & Hc). rewrite Hc.
    destruct (He k c Hc) as [Hdot Hslash].
    apply Ascii.eqb_neq in Hdot, Hslash. rewrite Hdot, Hslash.
    replace (String.length x + S k) with (String.length x + 1 + k) by lia.
    apply IH. lia.
Qed.

Lemma extFrom_after_slash (x e : string) k :
  plainName e -> k <= String.length e ->
  extFrom (x ++ String "/" e) (String.length x + 1 + k) = "".
Proof.
  intros He. induction k as [|k IH]; intros Hk.
  - replace (String.length x + 1 + 0) with (S (String.length x + 0)) by lia.
    cbn [extFrom]. rewrite ServerFacts.get_append_r. reflexivity.
  - replace (String.length x + 1 + S k) with (S (String.length x + S k)) by lia.
    cbn [extFrom]. rewrite ServerFacts.get_append_r. cbn [String.get].
    destruct (get_lt e k ltac:(lia)) as (c & Hc). rewrite Hc.
    destruct (He k c Hc) as [Hdot Hslash].
    apply Ascii.eqb_neq in Hdot, Hslash. rewrite Hdot, Hslash.
    replace (String.length x + S k) with (String.length x + 1 + k) by lia.
    apply IH. lia.
Qed.

(** X16. Only what follows the last dot of the last path segment decides
    whether compression is tried, and it is compared in lower case: for a
    path that ends in a dot and a part [e] without dot or slash, the
    extension is compressible exactly when [e], lowered, is tsv, html, js
    or css; a path whose last segment has no dot is never compressed. *)
Theorem compressible_by_last_extension (x e : string) :
  plainName e ->
  gzipped (ToLower (Ext (x ++ String "." e)))
  = (String.eqb (ToLower e) "tsv" || String.eqb (ToLower e) "html"
     || String.eqb (ToLower e) "js" || String.eqb (ToLower e) "css")
  /\ gzipped (ToLower (Ext (x ++ String "/" e))) = false.
Proof.
  intros He. split.
  - unfold Ext. rewrite ServerFacts.length_append. cbn [String.length].
    replace (String.length x + S (String.length e))
      with (String.length x + 1 + String.length e) by lia.
    rewrite (extFrom_after_dot x e _ He (Nat.le_refl _)). reflexivity.
  - unfold Ext. rewrite ServerFacts.length_append. cbn [String.length].
    replace (String.length x + S (String.length e))
      with (String.length x + 1 + String.length e) by lia.
    rewrite (extFrom_after_slash x e _ He (Nat.le_refl _)). reflexivity.
Qed.

End ExtFacts.

Lemma compressible_by_last_extension_witness :
  Server.gzipped (Server.ToLower (Server.Ext ("/site/app.min" ++ String "." "JS")))
  = (String.eqb (Server.ToLower "JS") "tsv" || String.eqb (Server.ToLower "JS") "html"
     || String.eqb (Server.ToLower "JS") "js" || String.eqb (Server.ToLower "JS") "css")
  /\ Server.gzipped (Server.ToLower (Server.Ext ("/site/app.min" ++ String "/" "JS"))) = false.
Proof.
  apply ExtFacts.compressible_by_last_extension.
  intros [|[|k]] c H; cbn in H; try discriminate H; injection H as <-; split; discriminate.
Defined.

(** ** The body as a function of the fields *)

(** X17. Two row sets are serialized to the same body exactly when they
    have the same sanitized fields, row by row: the body, and with it the
    version, changes as soon as one written field does. *)
Theorem body_determines_fields (rows1 rows2 : list Row) :
  buildTSVBody rows1 = buildTSVBody rows2 <-> map rowFields rows1 = map rowFields rows2.
Proof.
  split.
  - intros H. apply (f_equal (fun b => split b 10)) in H.
    rewrite !buildTSVBody_split in H. injection H as H.
    apply app_inv_tail in H.
    apply (f_equal (map (fun l => split l 9))) in H.
    rewrite !map_map in H.
    rewrite (map_ext _ rowFields (fun r => rowLine_split r)) in H.
    rewrite (map_ext (fun r => split (rowLine r) 9) rowFields (fun r => rowLine_split r)) in H.
    exact H.
  - intros H. unfold buildTSVBody. do 3 f_equal.
    apply (f_equal (map (fun f => join f TAB))) in H.
    rewrite !map_map in H. exact H.
Qed.

(** ** The report, line by line *)

Section ReportLines.

Variable URL_protocol : jsstring -> option jsstring.

Implicit Types (rows all pre suf : list Row) (r : Row) (e s : jsstring)
               (seen : gmap (list Z) nat).

Lemma checkRows_In_inv rows : forall i0 e,
  In e (checkRows URL_protocol rows i0) ->
  exists j r, rows !! j = Some r /\ In e (rowErrors URL_protocol (i0 + j) r).
Proof.
  induction rows as [|r rest IH]; intros i0 e H; [destruct H|].
  cbn [checkRows] in H. apply in_app_or in H as [H|H].
  - exists 0%nat, r. split; [reflexivity|]. rewrite Nat.add_0_r. exact H.
  - destruct (IH (S i0) e H) as (j & r' & Hj & He). exists (S j), r'. split; [exact Hj|].
    replace (i0 + S j)%nat with (S i0 + j)%nat by lia. exact He.
Qed.

(** A repeat: [s] is not empty, row [i] is the first with it and row [j],
    further down, has it again. *)
Definition repeatOf rows s (i j : nat) : Prop :=
  s <> [] /\ (i < j)%nat /\ slugAt rows i = Some s /\ slugAt rows j = Some s
  /\ forall k, (k < i)%nat -> slugAt rows k <> Some s.

(** What [seen] holds when the second loop has done the first [n] rows. *)
Definition seenUpTo all (n : nat) seen : Prop :=
  (forall s f, seen !! s = Some f ->
     exists i, f = (i + 1)%nat /\ (i < n)%nat /\ s <> [] /\ slugAt all i = Some s
               /\ forall k, (k < i)%nat -> slugAt all k <> Some s)
  /\ (forall s, s <> [] -> seen !! s = None ->
        forall k, (k < n)%nat -> slugAt all k <> Some s).

Lemma slugAt_middle pre r suf : slugAt (pre ++ r :: suf) (length pre) = Some (slugOf r).
Proof.
  unfold slugAt. rewrite lookup_app_r by lia. rewrite Nat.sub_diag. reflexivity.
Qed.

Lemma seenUpTo_skip pre r suf seen :
  slugOf r = [] ->
  seenUpTo (pre ++ r :: suf) (length pre) seen ->
  seenUpTo (pre ++ r :: suf) (S (length pre)) seen.
Proof.
  intros Hr [H1 H2]. split.
  - intros s f Hs. destruct (H1 s f Hs) as (i & Hf & Hi & Hrest). exists i. split; [exact Hf|].
    split; [lia | exact Hrest].
  - intros s Hne Hs k Hk. destruct (decide (k = length pre)) as [->|Hd].
    + rewrite slugAt_middle, Hr. congruence.
    + apply H2; auto. lia.
Qed.

Lemma seenUpTo_known pre r suf seen f :
  seen !! slugOf r = Some f ->
  seenUpTo (pre ++ r :: suf) (length pre) seen ->
  seenUpTo (pre ++ r :: suf) (S (length pre)) seen.
Proof.
  intros Hf [H1 H2]. split.
  - intros s f' Hs. destruct (H1 s f' Hs) as (i & Hf' & Hi & Hrest). exists i. split; [exact Hf'|].
    split; [lia | exact Hrest].
  - intros s Hne Hs k Hk. destruct (decide (k = length pre)) as [->|Hd].
    + rewrite slugAt_middle. intros [= E]. rewrite E in Hf. congruence.
    + apply H2; auto. lia.
Qed.

Lemma seenUpTo_new pre r suf seen :
  slugOf r <> [] -> seen !! slugOf r = None ->
  seenUpTo (pre ++ r :: suf) (length pre) seen ->
  seenUpTo (pre ++ r :: suf) (S (length pre)) (<[slugOf r := (length pre + 1)%nat]> seen).
Proof.
  intros Hne Hnone [H1 H2]. split.
  - intros s f Hs. destruct (decide (slugOf r = s)) as [<-|Hd].
    + rewrite lookup_insert_eq in Hs. injection Hs as <-.
      exists (length pre). repeat split; [lia | exact Hne | apply slugAt_middle|].
      apply H2; assumption.
    + rewrite lookup_insert_ne in Hs by exact Hd.
      destruct (H1 s f Hs) as (i & Hf & Hi & Hrest). exists i. split; [exact Hf|].
      split; [lia | exact Hrest].
  - intros s Hs Hlook k Hk.
    destruct (decide (slugOf r = s)) as [<-|Hd]; [rewrite lookup_insert_eq in Hlook; discriminate|].
    rewrite lookup_insert_ne in Hlook by exact Hd.
    destruct (decide (k = length pre)) as [->|Hd'].
    + rewrite slugAt_middle. congruence.
    + apply H2; auto. lia.
Qed.

Lemma checkDuplicates_inv e : forall suf pre seen,
  seenUpTo (pre ++ suf) (length pre) seen ->
  In e (checkDuplicates suf (length pre) seen) ->
  exists s i j, repeatOf (pre ++ suf) s i j /\ e = duplicateMsg s (i + 1) (j + 1).
Proof.
  induction suf as [|r rest IH]; intros pre seen Hseen H; [destruct H|].
  assert (Hshift : pre ++ r :: rest = (pre ++ [r]) ++ rest) by (rewrite <- app_assoc; reflexivity).
  assert (Hlen : S (length pre) = length (pre ++ [r])) by (rewrite length_app; cbn; lia).
  cbn [checkDuplicates] in H. fold (slugOf r) in H.
  destruct (truthy (slugOf r)) eqn:Ht; cbn [negb] in H.
  - assert (Hne : slugOf r <> []) by (destruct (slugOf r); [discriminate | congruence]).
    destruct (seen !! slugOf r) as [f|] eqn:Hf.
    + destruct H as [<-|H].
      * destruct Hseen as [H1 _]. destruct (H1 _ _ Hf) as (i & -> & Hi & _ & Hsi & Hmin).
        exists (slugOf r), i, (length pre). split; [|reflexivity].
        repeat split; [exact Hne | exact Hi | exact Hsi | apply slugAt_middle | exact Hmin].
      * rewrite Hlen in H. rewrite Hshift. apply (IH (pre ++ [r]) seen); [|exact H].
        rewrite <- Hshift, <- Hlen. eapply seenUpTo_known; eassumption.
    + rewrite Hlen in H. rewrite Hshift.
      apply (IH (pre ++ [r]) (<[slugOf r := (length pre + 1)%nat]> seen)); [|exact H].
      rewrite <- Hshift, <- Hlen. apply seenUpTo_new; assumption.
  - assert (He : slugOf r = []) by (destruct (slugOf r); [reflexivity | discriminate]).
    rewrite Hlen in H. rewrite Hshift. apply (IH (pre ++ [r]) seen); [|exact H].
    rewrite <- Hshift, <- Hlen. apply seenUpTo_skip; assumption.
Qed.

(** X18. The report holds exactly the messages of the per-row checks of
    the rows and one duplicate line for each repeat of a non-empty trimmed
    slug, naming the first row that has the slug and the row that repeats
    it: nothing else is ever reported. *)
Theorem report_lines_exactly rows e :
  In e (collectErrors URL_protocol rows)
  <-> (exists j r, rows !! j = Some r /\ In e (rowErrors URL_protocol j r))
      \/ (exists s i j, repeatOf rows s i j /\ e = duplicateMsg s (i + 1) (j + 1)).
Proof.
  unfold collectErrors. rewrite in_app_iff. split.
  - intros [H|H].
    + left. apply checkRows_In_inv in H as (j & r & Hj & He). exists j, r. auto.
    + right. apply (checkDuplicates_inv e rows [] ∅); [|exact H].
      split; [intros s f Hs; rewrite lookup_empty in Hs; discriminate|].
      intros s _ _ k Hk. cbn in Hk. lia.
  - intros [(j & r & Hj & He)|(s & i & j & (Hne & Hij & Hi & Hj & Hmin) & ->)].
    + left. apply (checkRows_In URL_protocol rows 0 j r e Hj). exact He.
    + right. apply (checkDuplicates_first s Hne rows 0 ∅ i j Hij Hi Hj Hmin).
      apply lookup_empty.
Qed.

End ReportLines.

(** ** Written text read back: UTF-8 *)

Section Utf8RoundTrip.

Import Buffer.

Ltac divmod := Z.div_mod_to_equations; lia.

(** Or-ing in bits below a multiple of [2^n] adds them. *)
Lemma lor_low (a y n : Z) :
  0 <= n -> 0 <= y < 2 ^ n -> a mod 2 ^ n = 0 -> Z.lor a y = a + y.
Proof.
  intros Hn Hy Ha.
  assert (Hl : Z.land a y = 0).
  { rewrite <- (Z.mod_small y (2 ^ n)) by exact Hy.
    rewrite <- (Z.land_ones y n) by exact Hn.
    rewrite (Z.land_comm y), Z.land_assoc, (Z.land_ones a n) by exact Hn.
    rewrite Ha. apply Z.land_0_l. }
  rewrite <- (Z.lxor_lor a y Hl). symmetry. apply Z.add_nocarry_lxor, Hl.
Qed.

Lemma land_low (a y n : Z) :
  0 <= n -> 0 <= y < 2 ^ n -> a mod 2 ^ n = 0 -> Z.land (a + y) (Z.ones n) = y.
Proof.
  intros Hn Hy Ha. rewrite Z.land_ones by exact Hn.
  rewrite Z.add_mod by lia. rewrite Ha, Z.add_0_l, Z.mod_mod by lia.
  apply Z.mod_small, Hy.
Qed.

(** The bytes of a code point, in arithmetic. *)
Lemma encode_2 cp : 0x80 <= cp < 0x800 ->
  encodeCodePoint cp = [0xC0 + cp / 64; 0x80 + cp mod 64].
Proof.
  intros H. unfold encodeCodePoint.
  destruct (Z.ltb_spec cp 0x80); [lia|]. destruct (Z.ltb_spec cp 0x800); [|lia].
  rewrite (Z.shiftr_div_pow2 cp 6) by lia. change 0x3F with (Z.ones 6).
  rewrite (Z.land_ones cp 6) by lia. change (2 ^ 6) with 64.
  rewrite (lor_low 0xC0 (cp / 64) 5), (lor_low 0x80 (cp mod 64) 6);
    first [reflexivity | lia | change (2 ^ 5) with 32; change (2 ^ 6) with 64; divmod].
Qed.

Lemma encode_3 cp : 0x800 <= cp < 0x10000 ->
  encodeCodePoint cp = [0xE0 + cp / 4096; 0x80 + (cp / 64) mod 64; 0x80 + cp mod 64].
Proof.
  intros H. unfold encodeCodePoint.
  destruct (Z.ltb_spec cp 0x80); [lia|]. destruct (Z.ltb_spec cp 0x800); [lia|].
  destruct (Z.ltb_spec cp 0x10000); [|lia].
  rewrite (Z.shiftr_div_pow2 cp 6), (Z.shiftr_div_pow2 cp 12) by lia. change 0x3F with (Z.ones 6).
  rewrite !Z.land_ones by lia. change (2 ^ 6) with 64. change (2 ^ 12) with 4096.
  rewrite (lor_low 0xE0 (cp / 4096) 4), (lor_low 0x80 ((cp / 64) mod 64) 6),
          (lor_low 0x80 (cp mod 64) 6);
    first [reflexivity | lia | change (2 ^ 4) with 16; change (2 ^ 6) with 64; divmod].
Qed.

Lemma encode_4 cp : 0x10000 <= cp <= 0x10FFFF ->
  encodeCodePoint cp
  = [0xF0 + cp / 262144; 0x80 + (cp / 4096) mod 64; 0x80 + (cp / 64) mod 64; 0x80 + cp mod 64].
Proof.
  intros H. unfold encodeCodePoint.
  destruct (Z.ltb_spec cp 0x80); [lia|]. destruct (Z.ltb_spec cp 0x800); [lia|].
  destruct (Z.ltb_spec cp 0x10000); [lia|].
  rewrite (Z.shiftr_div_pow2 cp 6), (Z.shiftr_div_pow2 cp 12), (Z.shiftr_div_pow2 cp 18) by lia.
  change 0x3F with (Z.ones 6).
  rewrite !Z.land_ones by lia.
  change (2 ^ 6) with 64. change (2 ^ 12) with 4096. change (2 ^ 18) with 262144.
  rewrite (lor_low 0xF0 (cp / 262144) 3), (lor_low 0x80 ((cp / 4096) mod 64) 6),
          (lor_low 0x80 ((cp / 64) mod 64) 6), (lor_low 0x80 (cp mod 64) 6);
    first [reflexivity | lia | change (2 ^ 3) with 8; change (2 ^ 6) with 64; divmod].
Qed.

(** The steps of the decoder. *)
Lemma decode_step d b buf out d' :
  feed d b = (out, d') -> decode d (b :: buf) = out ++ decode d' buf.
Proof. intros H. cbn [decode]. rewrite H. reflexivity. Qed.

Lemma feed_continuation cp n lo hi y :
  0 <= cp -> 0 <= y < 64 -> lo <= 0x80 + y <= hi ->
  feed (Decoder cp (S n) lo hi) (0x80 + y)
  = match n with
    | O => (codeUnits (cp * 64 + y), idle)
    | S _ => ([], Decoder (cp * 64 + y) n 0x80 0xBF)
    end.
Proof.
  intros Hcp Hy Hr. unfold feed. cbn [needed lower upper Buffer.cp].
  destruct (Z.leb_spec lo (0x80 + y)); [|lia]. destruct (Z.leb_spec (0x80 + y) hi); [|lia].
  cbn [andb]. change 0x3F with (Z.ones 6).
  rewrite (land_low 0x80 y 6) by (first [lia | reflexivity | exact Hy]).
  rewrite Z.shiftl_mul_pow2 by lia. change (2 ^ 6) with 64.
  rewrite (lor_low (cp * 64) y 6) by (first [lia | exact Hy | apply Z_mod_mult]).
  reflexivity.
Qed.

Lemma lead_1 b : 0 <= b < 0x80 -> lead b = ([b], idle).
Proof. intros H. unfold lead. destruct (Z.leb_spec b 0x7F); [reflexivity | lia]. Qed.

Lemma lead_2 x : 2 <= x < 32 -> lead (0xC0 + x) = ([], Decoder x 1 0x80 0xBF).
Proof.
  intros H. unfold lead.
  destruct (Z.leb_spec (0xC0 + x) 0x7F); [lia|].
  destruct (Z.leb_spec 0xC2 (0xC0 + x)); [|lia].
  destruct (Z.leb_spec (0xC0 + x) 0xDF); [|lia]. cbn [andb].
  change 0x1F with (Z.ones 5). rewrite (land_low 0xC0 x 5) by (first [lia | reflexivity]).
  reflexivity.
Qed.

Lemma lead_3 x : 0 <= x < 16 ->
  lead (0xE0 + x)
  = ([], Decoder x 2 (if x =? 0 then 0xA0 else 0x80) (if x =? 13 then 0x9F else 0xBF)).
Proof.
  intros H. unfold lead.
  destruct (Z.leb_spec (0xE0 + x) 0x7F); [lia|].
  destruct (Z.leb_spec 0xC2 (0xE0 + x)); [|lia].
  destruct (Z.leb_spec (0xE0 + x) 0xDF); [lia|]. cbn [andb].
  destruct (Z.leb_spec 0xE0 (0xE0 + x)); [|lia].
  destruct (Z.leb_spec (0xE0 + x) 0xEF); [|lia]. cbn [andb].
  change 0xF with (Z.ones 4). rewrite (land_low 0xE0 x 4) by (first [lia | reflexivity]).
  replace (0xE0 + x =? 0xE0) with (x =? 0)
    by (destruct (Z.eqb_spec x 0), (Z.eqb_spec (0xE0 + x) 0xE0); first [reflexivity | lia]).
  replace (0xE0 + x =? 0xED) with (x =? 13)
    by (destruct (Z.eqb_spec x 13), (Z.eqb_spec (0xE0 + x) 0xED); first [reflexivity | lia]).
  reflexivity.
Qed.

Lemma lead_4 x : 0 <= x <= 4 ->
  lead (0xF0 + x)
  = ([], Decoder x 3 (if x =? 0 then 0x90 else 0x80) (if x =? 4 then 0x8F else 0xBF)).
Proof.
  intros H. unfold lead.
  destruct (Z.leb_spec (0xF0 + x) 0x7F); [lia|].
  destruct (Z.leb_spec 0xC2 (0xF0 + x)); [|lia].
  destruct (Z.leb_spec (0xF0 + x) 0xDF); [lia|]. cbn [andb].
  destruct (Z.leb_spec 0xE0 (0xF0 + x)); [|lia].
  destruct (Z.leb_spec (0xF0 + x) 0xEF); [lia|]. cbn [andb].
  destruct (Z.leb_spec 0xF0 (0xF0 + x)); [|lia].
  destruct (Z.leb_spec (0xF0 + x) 0xF4); [|lia]. cbn [andb].
  change 0x7 with (Z.ones 3). rewrite (land_low 0xF0 x 3) by (first [lia | reflexivity]).
  replace (0xF0 + x =? 0xF0) with (x =? 0)
    by (destruct (Z.eqb_spec x 0), (Z.eqb_spec (0xF0 + x) 0xF0); first [reflexivity | lia]).
  replace (0xF0 + x =? 0xF4) with (x =? 4)
    by (destruct (Z.eqb_spec x 4), (Z.eqb_spec (0xF0 + x) 0xF4); first [reflexivity | lia]).
  reflexivity.
Qed.

(** A Unicode scalar value: a code point that is not a surrogate. *)
Definition scalar (cp : Z) : Prop :=
  0 <= cp <= 0x10FFFF /\ ~ (0xD800 <= cp <= 0xDFFF).

(** The decoder reads the bytes of a scalar value back as its code units. *)
Lemma decode_encoded cp rest :
  scalar cp -> decode idle (encodeCodePoint cp ++ rest) = codeUnits cp ++ decode idle rest.
Proof.
  intros [Hr Hs].
  destruct (Z.lt_ge_cases cp 0x80) as [H1|H1].
  { unfold encodeCodePoint. destruct (Z.ltb_spec cp 0x80); [|lia]. cbn [app].
    rewrite (decode_step idle cp rest [cp] idle) by (apply lead_1; lia).
    unfold codeUnits. destruct (Z.ltb_spec cp 0x10000); [reflexivity | lia]. }
  destruct (Z.lt_ge_cases cp 0x800) as [H2|H2].
  { rewrite encode_2 by lia. cbn [app].
    rewrite (decode_step idle _ _ [] (Decoder (cp / 64) 1 0x80 0xBF))
      by (apply lead_2; divmod).
    rewrite (decode_step _ _ _ _ _ (feed_continuation (cp / 64) 0 0x80 0xBF (cp mod 64)
               ltac:(divmod) ltac:(divmod) ltac:(divmod))).
    cbn [app]. replace (cp / 64 * 64 + cp mod 64) with cp by divmod. reflexivity. }
  destruct (Z.lt_ge_cases cp 0x10000) as [H3|H3].
  { rewrite encode_3 by lia. cbn [app].
    rewrite (decode_step idle _ _ _ _ (lead_3 (cp / 4096) ltac:(divmod))). cbn [app].
    rewrite (decode_step _ _ _ _ _ (feed_continuation (cp / 4096) 1
               (if cp / 4096 =? 0 then 0xA0 else 0x80) (if cp / 4096 =? 13 then 0x9F else 0xBF)
               ((cp / 64) mod 64)
               ltac:(divmod) ltac:(divmod)
               ltac:(destruct (Z.eqb_spec (cp / 4096) 0), (Z.eqb_spec (cp / 4096) 13); divmod))).
    cbn [app].
    rewrite (decode_step _ _ _ _ _ (feed_continuation (cp / 4096 * 64 + (cp / 64) mod 64)
               0 0x80 0xBF (cp mod 64) ltac:(divmod) ltac:(divmod) ltac:(divmod))).
    replace (((cp / 4096) * 64 + (cp / 64) mod 64) * 64 + cp mod 64) with cp by divmod.
    reflexivity. }
  rewrite encode_4 by lia. cbn [app].
  rewrite (decode_step idle _ _ _ _ (lead_4 (cp / 262144) ltac:(divmod))). cbn [app].
  rewrite (decode_step _ _ _ _ _ (feed_continuation (cp / 262144) 2
             (if cp / 262144 =? 0 then 0x90 else 0x80) (if cp / 262144 =? 4 then 0x8F else 0xBF)
             ((cp / 4096) mod 64)
             ltac:(divmod) ltac:(divmod)
             ltac:(destruct (Z.eqb_spec (cp / 262144) 0), (Z.eqb_spec (cp / 262144) 4); divmod))).
  cbn [app].
  rewrite (decode_step _ _ _ _ _ (feed_continuation (cp / 262144 * 64 + (cp / 4096) mod 64)
             1 0x80 0xBF ((cp / 64) mod 64) ltac:(divmod) ltac:(divmod) ltac:(divmod))).
  cbn [app].
  rewrite (decode_step _ _ _ _ _ (feed_continuation
             ((cp / 262144 * 64 + (cp / 4096) mod 64) * 64 + (cp / 64) mod 64)
             0 0x80 0xBF (cp mod 64) ltac:(divmod) ltac:(divmod) ltac:(divmod))).
  replace ((((cp / 262144) * 64 + (cp / 4096) mod 64) * 64 + (cp / 64) mod 64) * 64 + cp mod 64)
    with cp by divmod.
  reflexivity.
Qed.

End Utf8RoundTrip.

(** A well-formed string: every surrogate is half of a pair. *)
Inductive wellFormed : jsstring -> Prop :=
  | wellFormed_nil : wellFormed []
  | wellFormed_unit c s :
      0 <= c < 0xD800 \/ 0xE000 <= c <= 0xFFFF -> wellFormed s -> wellFormed (c :: s)
  | wellFormed_pair c d s :
      0xD800 <= c <= 0xDBFF -> 0xDC00 <= d <= 0xDFFF -> wellFormed s ->
      wellFormed (c :: d :: s).

Section Utf8Texts.

Import Buffer.

Lemma codeUnits_pair c d :
  0xD800 <= c <= 0xDBFF -> 0xDC00 <= d <= 0xDFFF ->
  codeUnits (0x10000 + (c - 0xD800) * 0x400 + (d - 0xDC00)) = [c; d].
Proof.
  intros Hc Hd. unfold codeUnits.
  destruct (Z.ltb_spec (0x10000 + (c - 0xD800) * 0x400 + (d - 0xDC00)) 0x10000); [lia|].
  replace (0x10000 + (c - 0xD800) * 0x400 + (d - 0xDC00) - 0x10000)
    with ((c - 0xD800) * 1024 + (d - 0xDC00)) by lia.
  rewrite Z.shiftr_div_pow2 by lia. change 0x3FF with (Z.ones 10).
  rewrite Z.land_ones by lia. change (2 ^ 10) with 1024.
  f_equal; [|f_equal]; Z.div_mod_to_equations; lia.
Qed.

Lemma utf8_roundtrip s : wellFormed s -> toString_utf8 (from_utf8 s) = s.
Proof.
  unfold toString_utf8. induction 1 as [|c s Hc _ IH|c d s Hc Hd _ IH].
  - reflexivity.
  - cbn [from_utf8]. unfold isHighSurrogate, isLowSurrogate.
    destruct (Z.leb_spec 0xD800 c), (Z.leb_spec c 0xDBFF), (Z.leb_spec 0xDC00 c),
      (Z.leb_spec c 0xDFFF); cbn [andb]; try lia;
      (rewrite decode_encoded by (unfold scalar; lia); rewrite IH;
       unfold codeUnits; destruct (Z.ltb_spec c 0x10000); [reflexivity | lia]).
  - cbn [from_utf8]. unfold isHighSurrogate, isLowSurrogate.
    destruct (Z.leb_spec 0xD800 c), (Z.leb_spec c 0xDBFF); try lia.
    destruct (Z.leb_spec 0xDC00 d), (Z.leb_spec d 0xDFFF); try lia. cbn [andb].
    rewrite decode_encoded by (unfold scalar; lia).
    rewrite IH, codeUnits_pair by assumption. reflexivity.
Qed.

(** X19. Text written as UTF-8 is read back as it was: for every
    well-formed string (no surrogate outside a pair), decoding the bytes
    that [Buffer.from(s, "utf8")] gives returns [s], so reading with
    [readFileSync(p, "utf8")] a file just written with those bytes returns
    the string, and the file holds exactly those bytes. *)
Theorem written_text_reads_back (p s : jsstring) (w : World) :
  wellFormed s ->
  files w !! p <> Some Dir ->
  toString_utf8 (from_utf8 s) = s
  /\ (writeFileSync p (from_utf8 s);; readFileSync p) w
     = (inr s, {| files := <[p := File (from_utf8 s)]> (files w); stdout := stdout w |}).
Proof.
  intros Hs Hp. split; [apply utf8_roundtrip, Hs|].
  rewrite (bind_value _ _ _ _ _ (writeFileSync_ok p (from_utf8 s) w Hp)).
  unfold readFileSync. cbn [files]. rewrite lookup_insert_eq, (utf8_roundtrip s Hs). reflexivity.
Qed.

End Utf8Texts.

Lemma written_text_reads_back_witness :
  Buffer.toString_utf8 (Buffer.from_utf8 [0x48; 0xE9; 0x20AC; 0xD83D; 0xDE00])
  = [0x48; 0xE9; 0x20AC; 0xD83D; 0xDE00]
  /\ (writeFileSync (js "note.txt") (Buffer.from_utf8 [0x48; 0xE9; 0x20AC; 0xD83D; 0xDE00]);;
      readFileSync (js "note.txt")) demo_world
     = (inr [0x48; 0xE9; 0x20AC; 0xD83D; 0xDE00],
        {| files := <[js "note.txt" := File (Buffer.from_utf8 [0x48; 0xE9; 0x20AC; 0xD83D; 0xDE00])]>
                      (files demo_world);
           stdout := stdout demo_world |}).
Proof.
  apply written_text_reads_back.
  - apply wellFormed_unit; [lia|]. apply wellFormed_unit; [lia|].
    apply wellFormed_unit; [lia|]. apply wellFormed_pair; [lia | lia | apply wellFormed_nil].
  - vm_compute. discriminate.
Defined.
